(** * The income-tax chatbot of [src/routes/demo/start.chatbot.tsx]

    A shallow embedding of the conversation handler [handleBotResponse],
    of the component that owns the message list ([handleSend],
    [handleKeyPress], the mount effect), and of the JavaScript built-ins
    they call: [toLowerCase], [includes], [trim], [String.prototype.match]
    on the slot regular expression, [parseFloat], double arithmetic and
    [toFixed].  The file holds three versions of the component; the
    first and the third have the same handlers, the second differs in
    one transition and in the layout of the estimate.

    Strings are [string]: a sequence of code units, each an [ascii] read
    as the code unit of the same number, U+0000 to U+00FF.  Numbers are
    binary64 values: [spec_float] at precision 53 and exponent bound
    1024, rounded to nearest with ties to even.  A React state cell is a
    field of a record; a handler takes the record of the render it was
    created in and returns the record of the next render. *)

From Stdlib Require Import Bool Arith NArith ZArith List Ascii String Lia.
From Stdlib Require Import DecimalString SpecFloat.
Import ListNotations.

Local Open Scope string_scope.

(** ** Code units and character classes *)

Module CodeUnit.

Definition code (c : ascii) : N := N_of_ascii c.

Definition in_range (lo hi : N) (c : ascii) : bool :=
  (lo <=? code c)%N && (code c <=? hi)%N.

Definition is_digit (c : ascii) : bool := in_range 48 57 c.
Definition is_upper (c : ascii) : bool := in_range 65 90 c.
Definition is_lower (c : ascii) : bool := in_range 97 122 c.

(** Latin-1 letters with a case pair inside Latin-1: U+00C0..U+00DE
    without the multiplication sign, U+00E0..U+00FE without the
    division sign. *)
Definition is_upper_latin1 (c : ascii) : bool :=
  in_range 192 222 c && negb (code c =? 215)%N.
Definition is_lower_latin1 (c : ascii) : bool :=
  in_range 224 254 c && negb (code c =? 247)%N.

Definition shift_up (c : ascii) : ascii := ascii_of_N (code c + 32).
Definition shift_down (c : ascii) : ascii := ascii_of_N (code c - 32).

(** One code unit of [String.prototype.toLowerCase]. *)
Definition toLowerCase (c : ascii) : ascii :=
  if is_upper c || is_upper_latin1 c then shift_up c else c.

(** [Canonicalize] of a regular expression with the [i] flag and without
    the [u] flag: the upper-case mapping, kept only when it is a single
    code unit and does not send a non-ASCII unit to an ASCII one.  The
    two units whose upper case lies above U+00FF (U+00B5, U+00FF) are
    alone in their class and stand for themselves. *)
Definition canonicalize (c : ascii) : ascii :=
  if is_lower c || is_lower_latin1 c then shift_down c else c.

(** WhiteSpace and LineTerminator, the set of [\s] and of [trim]. *)
Definition is_space (c : ascii) : bool :=
  in_range 9 13 c || (code c =? 32)%N || (code c =? 160)%N.

(** LineTerminator, what [.] refuses. *)
Definition is_line_terminator (c : ascii) : bool :=
  (code c =? 10)%N || (code c =? 13)%N.

(** [\w]: the 63 basic word characters. *)
Definition is_word (c : ascii) : bool :=
  is_upper c || is_lower c || is_digit c || (code c =? 95)%N.

End CodeUnit.

(** ** String built-ins *)

Module JSString.

Fixpoint toLowerCase (s : string) : string :=
  match s with
  | EmptyString => EmptyString
  | String c s' => String (CodeUnit.toLowerCase c) (toLowerCase s')
  end.

(** [s.startsWith(p)]. *)
Fixpoint startsWith (p s : string) : bool :=
  match p, s with
  | EmptyString, _ => true
  | String _ _, EmptyString => false
  | String a p', String b s' => Ascii.eqb a b && startsWith p' s'
  end.

(** [s.includes(p)]: [p] occurs at some index of [s]. *)
Fixpoint includes (s p : string) : bool :=
  startsWith p s ||
  match s with
  | EmptyString => false
  | String _ s' => includes s' p
  end.

Fixpoint trimStart (s : string) : string :=
  match s with
  | EmptyString => EmptyString
  | String c s' => if CodeUnit.is_space c then trimStart s' else s
  end.

(** Drops the trailing white space: a unit is kept when it is not a
    space or when something is kept after it. *)
Fixpoint trimEnd (s : string) : string :=
  match s with
  | EmptyString => EmptyString
  | String c s' =>
      match trimEnd s' with
      | EmptyString => if CodeUnit.is_space c then EmptyString
                       else String c EmptyString
      | t => String c t
      end
  end.

Definition trim (s : string) : string := trimEnd (trimStart s).

(** ToBoolean of a string: only the empty string is falsy. *)
Definition truthy (s : string) : bool :=
  match s with
  | EmptyString => false
  | String _ _ => true
  end.

Definition all_space (s : string) : bool :=
  forallb CodeUnit.is_space (list_ascii_of_string s).

End JSString.

(** ** A backtracking matcher for the slot regular expression

    The fragment of the pattern language the source uses: a code unit
    from a class, concatenation, a greedy quantifier on a class, and a
    capturing group.  The matcher is the continuation-passing one of the
    language definition: a quantifier first tries one more repetition and
    falls back to the continuation when that fails. *)

Module Regex.

Inductive regex : Type :=
| Empty
| Unit (cls : ascii -> bool)
| Cat (r1 r2 : regex)
| Greedy (min : nat) (max : option nat) (cls : ascii -> bool)
| Group (i : nat) (r : regex).

(** Capture [i] of a match, [None] for [undefined]. *)
Definition captures := list (option string).

Fixpoint set_capture (i : nat) (v : string) (caps : captures) : captures :=
  match i, caps with
  | _, [] => []
  | O, _ :: t => Some v :: t
  | S j, h :: t => h :: set_capture j v t
  end.

Definition continuation := string -> captures -> option captures.

Definition below (max : option nat) (n : nat) : bool :=
  match max with
  | None => true
  | Some m => (n <? m)%nat
  end.

(** The text consumed between the input [s] and its suffix [s']. *)
Definition consumed (s s' : string) : string :=
  substring 0 (String.length s - String.length s') s.

(** A greedy quantifier on a class, [n] repetitions made so far: one
    more repetition first, the continuation when that fails. *)
Fixpoint greedy (min : nat) (max : option nat) (cls : ascii -> bool)
    (k : continuation) (caps : captures) (n : nat) (s : string)
    {struct s} : option captures :=
  let stop := if (min <=? n)%nat then k s caps else None in
  match s with
  | String c s' =>
      if cls c && below max n then
        match greedy min max cls k caps (S n) s' with
        | Some res => Some res
        | None => stop
        end
      else stop
  | EmptyString => stop
  end.

Fixpoint matcher (r : regex) (s : string) (caps : captures)
    (k : continuation) {struct r} : option captures :=
  match r with
  | Empty => k s caps
  | Unit cls =>
      match s with
      | String c s' => if cls c then k s' caps else None
      | EmptyString => None
      end
  | Cat r1 r2 =>
      matcher r1 s caps (fun s' caps' => matcher r2 s' caps' k)
  | Greedy min max cls => greedy min max cls k caps O s
  | Group i r1 =>
      matcher r1 s caps
        (fun s' caps' => k s' (set_capture i (consumed s s') caps'))
  end.

(** Number of capturing groups, to size the result array. *)
Fixpoint groups (r : regex) : nat :=
  match r with
  | Cat r1 r2 => Nat.max (groups r1) (groups r2)
  | Group i r1 => Nat.max i (groups r1)
  | _ => O
  end.

(** One attempt at the start of [s]; capture 0 is the whole match. *)
Definition match_here (r : regex) (s : string) : option captures :=
  matcher r s (repeat None (S (groups r)))
    (fun s' caps' => Some (set_capture 0 (consumed s s') caps')).

(** [RegExpBuiltinExec] without the [g] and [y] flags: the first index
    at which an attempt succeeds. *)
Fixpoint exec (r : regex) (s : string) : option captures :=
  match match_here r s with
  | Some res => Some res
  | None =>
      match s with
      | EmptyString => None
      | String _ s' => exec r s'
      end
  end.

(** A literal under the [i] flag, unit by unit. *)
Definition lit_ci (c : ascii) : regex :=
  Unit (fun x => Ascii.eqb (CodeUnit.canonicalize x) (CodeUnit.canonicalize c)).

Fixpoint literal_ci (p : string) : regex :=
  match p with
  | EmptyString => Empty
  | String c p' => Cat (lit_ci c) (literal_ci p')
  end.

Definition star (cls : ascii -> bool) : regex := Greedy 0 None cls.
Definition plus (cls : ascii -> bool) : regex := Greedy 1 None cls.
Definition opt (cls : ascii -> bool) : regex := Greedy 0 (Some 1) cls.

Definition dot (c : ascii) : bool := negb (CodeUnit.is_line_terminator c).

Fixpoint cat_all (rs : list regex) : regex :=
  match rs with
  | [] => Empty
  | r :: rs' => Cat r (cat_all rs')
  end.

(** [matched[i]] read as a string: [undefined] converts to its name. *)
Definition capture (m : captures) (i : nat) : string :=
  match nth i m None with
  | Some v => v
  | None => "undefined"
  end.

(** *** The language of a pattern *)

Definition all_in (cls : ascii -> bool) (s : string) : bool :=
  forallb cls (list_ascii_of_string s).

Definition within (max : option nat) (n : nat) : Prop :=
  match max with
  | None => True
  | Some m => n <= m
  end.

(** [derives r s]: the whole of [s] is a match of [r]. *)
Inductive derives : regex -> string -> Prop :=
| derives_empty : derives Empty EmptyString
| derives_unit cls c :
    cls c = true -> derives (Unit cls) (String c EmptyString)
| derives_cat r1 r2 s1 s2 :
    derives r1 s1 -> derives r2 s2 -> derives (Cat r1 r2) (s1 ++ s2)
| derives_greedy min max cls s :
    all_in cls s = true ->
    min <= String.length s ->
    within max (String.length s) ->
    derives (Greedy min max cls) s
| derives_group i r s :
    derives r s -> derives (Group i r) s.

(** Some part of [s] is a match of [r]. *)
Definition occurs (r : regex) (s : string) : Prop :=
  exists pre mid post, s = pre ++ mid ++ post /\ derives r mid.

End Regex.

(** ** Numbers: binary64 values, [parseFloat] and [toFixed] *)

Module Number.

Local Open Scope Z_scope.

Definition prec : Z := 53.
Definition emax : Z := 1024.

Definition number := spec_float.

Definition NaN : number := S754_nan.
Definition Infinity : number := S754_infinity false.

Definition mul : number -> number -> number := SFmul prec emax.
Definition add : number -> number -> number := SFadd prec emax.
Definition sub : number -> number -> number := SFsub prec emax.

(** The Number value for the integer [v]: round to nearest, ties to
    even. *)
Definition of_Z (v : Z) : number := binary_normalize prec emax v 0 false.

(** The Number value for [m * 10 ^ e], the value of a decimal literal of
    digits [m] and scale [e], [m] not negative: the exact value rounded
    once.  Below 1 it is the quotient of two integers, which [SFdiv]
    rounds correctly whatever their sizes. *)
Definition of_decimal (m e : Z) : number :=
  match m with
  | Zpos p =>
      if 0 <=? e then of_Z (m * 10 ^ e)
      else SFdiv prec emax (S754_finite false p 0)
                           (S754_finite false (Z.to_pos (10 ^ (- e))) 0)
  | _ => S754_zero false
  end.

(** *** Reading decimal text *)

Definition digit_value (c : ascii) : Z := Z.of_N (CodeUnit.code c) - 48.

(** The longest prefix of decimal digits, and what follows it. *)
Fixpoint take_digits (s : string) : string * string :=
  match s with
  | String c s' =>
      if CodeUnit.is_digit c then
        let (d, r) := take_digits s' in (String c d, r)
      else (EmptyString, s)
  | EmptyString => (EmptyString, EmptyString)
  end.

Fixpoint digits_value (acc : Z) (s : string) : Z :=
  match s with
  | String c s' => digits_value (10 * acc + digit_value c) s'
  | EmptyString => acc
  end.

Definition is_empty (s : string) : bool :=
  match s with
  | EmptyString => true
  | String _ _ => false
  end.

(** ExponentPart: [e] or [E], an optional sign and at least one digit;
    0 when the text has no such part. *)
Definition exponent_part (s : string) : Z :=
  match s with
  | String c r =>
      if Ascii.eqb c "e" || Ascii.eqb c "E" then
        match r with
        | String "-" r' =>
            let (d, _) := take_digits r' in
            if is_empty d then 0 else - digits_value 0 d
        | String "+" r' =>
            let (d, _) := take_digits r' in digits_value 0 d
        | _ => let (d, _) := take_digits r in digits_value 0 d
        end
      else 0
  | EmptyString => 0
  end.

(** The longest prefix that is a StrUnsignedDecimalLiteral. *)
Definition parse_unsigned (s : string) : number :=
  if JSString.startsWith "Infinity" s then Infinity
  else
    let (ip, r1) := take_digits s in
    match r1 with
    | String "." r2 =>
        let (fp, r3) := take_digits r2 in
        if is_empty ip && is_empty fp then NaN
        else of_decimal (digits_value 0 (ip ++ fp))
               (exponent_part r3 - Z.of_nat (String.length fp))
    | _ =>
        if is_empty ip then NaN
        else of_decimal (digits_value 0 ip) (exponent_part r1)
    end.

(** [parseFloat(s)]. *)
Definition parseFloat (s : string) : number :=
  match JSString.trimStart s with
  | String "-" r => SFopp (parse_unsigned r)
  | String "+" r => parse_unsigned r
  | t => parse_unsigned t
  end.

(** *** Writing decimal text *)

Definition decimal (n : Z) : string :=
  DecimalString.NilZero.string_of_uint (N.to_uint (Z.to_N n)).

Fixpoint zeros (n : nat) : string :=
  match n with
  | O => EmptyString
  | S n' => String "0" (zeros n')
  end.

(** Trailing zero digits removed. *)
Fixpoint strip_zeros (s : string) : string :=
  match s with
  | EmptyString => EmptyString
  | String c s' =>
      match strip_zeros s' with
      | EmptyString => if Ascii.eqb c "0" then EmptyString
                       else String c EmptyString
      | t => String c t
      end
  end.

(** [Number::toString] of a value [v >= 10 ^ 21], an integer at this
    magnitude: the fewest
    digits [s] with [s * 10 ^ (n - k)] rounding to the value, the
    closest such [s], then exponential notation.  [k] counts up from 1;
    with all the digits of [v] the value itself round-trips. *)
Fixpoint shortest (fuel : nat) (k : nat) (n0 : nat) (v : Z) : Z * nat :=
  let j := (n0 - k)%nat in
  let p := 10 ^ Z.of_nat j in
  let lo := v / p in
  let hi := lo + 1 in
  let ok_lo := SFeqb (of_Z (lo * p)) (of_Z v) in
  let ok_hi := SFeqb (of_Z (hi * p)) (of_Z v) in
  let pick_lo :=
    match (v - lo * p) ?= (hi * p - v) with
    | Lt => true
    | Gt => false
    | Eq => Z.even lo
    end in
  match fuel with
  | O => (v, O)
  | S fuel' =>
      if ok_lo && ok_hi then ((if pick_lo then lo else hi), j)
      else if ok_lo then (lo, j)
      else if ok_hi then (hi, j)
      else shortest fuel' (S k) n0 v
  end.

Definition toString_large (v : Z) : string :=
  let n0 := String.length (decimal v) in
  let (s, j) := shortest n0 1 n0 v in
  let n := (j + String.length (decimal s))%nat in
  let e := "e+" ++ decimal (Z.of_nat n - 1) in
  match strip_zeros (decimal s) with
  | String d EmptyString => String d e
  | String d ds => String d (String "." (ds ++ e))
  | EmptyString => e
  end.

(** The integer [n] for which [n / 10 ^ f] is closest to [m * 2 ^ e],
    the larger of two. *)
Definition scaled_round (f : nat) (m : positive) (e : Z) : Z :=
  let t := Zpos m * 10 ^ Z.of_nat f in
  if 0 <=? e then t * 2 ^ e
  else (2 * t + 2 ^ (- e)) / 2 ^ (1 - e).

(** The integer part of [m * 2 ^ e]. *)
Definition floor_value (m : positive) (e : Z) : Z :=
  if 0 <=? e then Zpos m * 2 ^ e else Zpos m / 2 ^ (- e).

(** [x.toFixed(f)] for [0 <= f <= 100]. *)
Definition toFixed (f : nat) (x : number) : string :=
  match x with
  | S754_nan => "NaN"
  | S754_infinity false => "Infinity"
  | S754_infinity true => "-Infinity"
  | S754_zero _ =>
      if (f =? 0)%nat then "0" else "0." ++ zeros f
  | S754_finite sg m e =>
      let sign := if sg then "-" else "" in
      if 10 ^ 21 <=? floor_value m e then
        sign ++ toString_large (floor_value m e)
      else
        let d := decimal (scaled_round f m e) in
        let k := String.length d in
        let d := if (k <=? f)%nat then zeros (f + 1 - k) ++ d else d in
        let k := String.length d in
        if (f =? 0)%nat then sign ++ d
        else sign ++ substring 0 (k - f) d ++ "." ++ substring (k - f) f d
  end.

End Number.

(** ** Data model *)

Inductive ChatState : Type :=
| idle
| awaiting_tax_request
| awaiting_tax_details
| awaiting_anything_else.

Inductive Sender : Type := user | bot.

Record Message : Type := { sender : Sender; text : string }.

(** ** Text the handlers share *)

Definition quote : string := String (ascii_of_nat 34) EmptyString.
Definition nl : string := String (ascii_of_nat 10) EmptyString.

Definition example_slots : string :=
  "hours: 40, rate: 35, state: NY, county: Kings, city: NYC".

Definition greeting : string :=
  "Hello, my name is Jacob. How can I help you?".

Definition details_prompt : string :=
  "Sure! Please include your information like so, "
    ++ quote ++ example_slots ++ quote ++ ".".

Definition retry_prompt : string :=
  "Please include your information like so, "
    ++ quote ++ example_slots ++ quote ++ ".".

Definition instructions : string :=
  "I can help you calculate taxes. Please type "
    ++ quote ++ "please calculate my taxes" ++ quote ++ " to begin.".

Definition farewell : string := "Thanks, have a nice day!".

Definition fallback : string :=
  "Okay! Let me know if you would like me to calculate taxes again.".

(** ** The slot pattern

    The literal of lines 114-115: the labels hours, rate, state, county
    and city in this order, each followed by a colon, optional white
    space and a captured value (a number for the first two, a word for
    the others), any text that stays on the line between the fields, and
    the [i] flag. *)

Module Slot.
Import Regex.

Definition is_period (c : ascii) : bool := Ascii.eqb c ".".

(** A number: one or more digits, an optional period, digits. *)
Definition amount : regex :=
  Cat (plus CodeUnit.is_digit) (Cat (opt is_period) (star CodeUnit.is_digit)).

(** One or more word characters. *)
Definition word : regex := plus CodeUnit.is_word.

(** A label, optional white space, and the captured value. *)
Definition field (label : string) (i : nat) (value : regex) : regex :=
  Cat (literal_ci label) (Cat (star CodeUnit.is_space) (Group i value)).

Definition pattern : regex :=
  cat_all
    [ field "hours:" 1 amount; star dot;
      field "rate:" 2 amount; star dot;
      field "state:" 3 word; star dot;
      field "county:" 4 word; star dot;
      field "city:" 5 word ].

(** [userInput.match(regex)] *)
Definition matches (userInput : string) : option captures :=
  exec pattern userInput.

(** The utterance has the five labelled fields somewhere in it: a part
    of it is in the language of the pattern. *)
Definition present (userInput : string) : Prop := occurs pattern userInput.

End Slot.

(** ** The estimate, as both handlers compute it *)

Module Estimate.
Import Number.

Definition federalRate : number := of_decimal 12 (-2).
Definition stateRate : number := of_decimal 5 (-2).
Definition totalRate : number := add federalRate stateRate.

Definition hours (m : Regex.captures) : number :=
  parseFloat (Regex.capture m 1).
Definition rate (m : Regex.captures) : number :=
  parseFloat (Regex.capture m 2).
Definition stateName (m : Regex.captures) : string := Regex.capture m 3.
Definition countyName (m : Regex.captures) : string := Regex.capture m 4.
Definition cityName (m : Regex.captures) : string := Regex.capture m 5.

Definition grossPay (m : Regex.captures) : number := mul (hours m) (rate m).
Definition taxes (m : Regex.captures) : number := mul (grossPay m) totalRate.
Definition netPay (m : Regex.captures) : number := sub (grossPay m) (taxes m).

End Estimate.

(** ** The component around the handler

    [RouteComponent] is the same in the three versions of the file but
    for the body of [handleBotResponse], which is a parameter here. *)

Module Shell.

(** The three state cells of [RouteComponent]. *)
Record Component : Type :=
  { messages : list Message; input : string; state : ChatState }.

(** The initial values given to [useState]. *)
Definition initial : Component :=
  {| messages := []; input := ""; state := idle |}.

(** The mount effect, lines 54-61. *)
Definition greet (c : Component) : Component :=
  {| messages := [ {| sender := bot; text := greeting |} ];
     input := input c;
     state := awaiting_tax_request |}.

Definition session_start : Component := greet initial.

(** What the user can do: edit the text box, press a key in it, click
    the button. *)
Inductive Event : Type :=
| Change (value : string)
| KeyDown (key : string)
| Click.

Definition setInput (value : string) (c : Component) : Component :=
  {| messages := messages c; input := value; state := state c |}.

Section Handlers.

Variable handleBotResponse : ChatState -> string -> string * ChatState.

(** [handleSend], lines 73-83. *)
Definition handleSend (c : Component) : Component :=
  if negb (JSString.truthy (JSString.trim (input c))) then c
  else
    let userMessage := {| sender := user; text := input c |} in
    let (reply, next) := handleBotResponse (state c) (input c) in
    let botMessage := {| sender := bot; text := reply |} in
    {| messages := (messages c ++ [userMessage]) ++ [botMessage];
       input := "";
       state := next |}.

(** [handleKeyPress], lines 88-90. *)
Definition handleKeyPress (key : string) (c : Component) : Component :=
  if String.eqb key "Enter" then handleSend c else c.

Definition handle (e : Event) (c : Component) : Component :=
  match e with
  | Change v => setInput v c
  | KeyDown k => handleKeyPress k c
  | Click => handleSend c
  end.

Definition run (es : list Event) (c : Component) : Component :=
  fold_left (fun c e => handle e c) es c.

End Handlers.

End Shell.

(** ** The handler of lines 1-261 (repeated unchanged at lines 474-735) *)

Module Variant1.
Import Estimate.

(** The template literal of lines 134-140. *)
Definition estimate_text (m : Regex.captures) : string :=
  "Estimated taxes for " ++ cityName m ++ ", " ++ countyName m
    ++ " County, " ++ stateName m ++ ":" ++ nl
    ++ "Gross Pay: $" ++ Number.toFixed 2 (grossPay m) ++ nl
    ++ "Taxes: $" ++ Number.toFixed 2 (taxes m) ++ nl
    ++ "Net Pay: $" ++ Number.toFixed 2 (netPay m) ++ nl
    ++ "(Note: this is an estimate.)" ++ nl
    ++ nl
    ++ "Would you like help with anything else?".

(** [handleBotResponse], lines 97-161: the reply, and the state the
    component holds afterwards ([setState]'s argument, or the state it
    was called in when the branch sets none). *)
Definition handleBotResponse (state : ChatState) (userInput : string)
    : string * ChatState :=
  let lowerInput := JSString.toLowerCase userInput in
  match state with
  | awaiting_tax_request =>
      if JSString.includes lowerInput "tax" then
        (details_prompt, awaiting_tax_details)
      else if JSString.includes lowerInput "no" then
        (farewell, awaiting_anything_else)
      else (instructions, state)
  | awaiting_tax_details =>
      match Slot.matches userInput with
      | Some m => (estimate_text m, awaiting_anything_else)
      | None => (retry_prompt, state)
      end
  | awaiting_anything_else =>
      if JSString.includes lowerInput "no" then
        (farewell, awaiting_tax_request)
      else if JSString.includes lowerInput "tax" then
        (details_prompt, awaiting_tax_details)
      else (fallback, awaiting_tax_request)
  | idle => (fallback, awaiting_anything_else)
  end.

Definition handleSend := Shell.handleSend handleBotResponse.
Definition handle := Shell.handle handleBotResponse.
Definition run := Shell.run handleBotResponse.

End Variant1.

(** ** The handler of lines 264-472 *)

Module Variant2.
Import Estimate.

Definition indent : string := "            ".

(** The template literal of lines 358-364. *)
Definition estimate_text (m : Regex.captures) : string :=
  "Estimated taxes for " ++ cityName m ++ ", " ++ countyName m
    ++ " County, " ++ stateName m ++ ":" ++ nl
    ++ indent ++ "Gross Pay: $" ++ Number.toFixed 2 (grossPay m) ++ nl
    ++ indent ++ "Taxes: $" ++ Number.toFixed 2 (taxes m) ++ nl
    ++ indent ++ "Net Pay: $" ++ Number.toFixed 2 (netPay m) ++ nl
    ++ indent ++ "(Note: this is an estimate.)" ++ nl
    ++ nl
    ++ indent ++ "Would you like help with anything else?".

(** [handleBotResponse], lines 320-387. *)
Definition handleBotResponse (state : ChatState) (userInput : string)
    : string * ChatState :=
  let lowerInput := JSString.toLowerCase userInput in
  match state with
  | awaiting_tax_request =>
      if JSString.includes lowerInput "tax" then
        (details_prompt, awaiting_tax_details)
      else if JSString.includes lowerInput "no" then
        (farewell, awaiting_anything_else)
      else (instructions, state)
  | awaiting_tax_details =>
      match Slot.matches userInput with
      | Some m => (estimate_text m, awaiting_anything_else)
      | None => (retry_prompt, state)
      end
  | awaiting_anything_else =>
      if JSString.includes lowerInput "no" then
        (farewell, awaiting_anything_else)
      else if JSString.includes lowerInput "tax" then
        (details_prompt, awaiting_tax_details)
      else (fallback, awaiting_tax_request)
  | idle => (fallback, awaiting_anything_else)
  end.

End Variant2.


(** ** Vocabulary of the properties *)

(** [w] occurs in [u], letter case apart. *)
Definition contains_ci (u w : string) : Prop :=
  exists pre mid post,
    u = pre ++ mid ++ post /\ JSString.toLowerCase mid = w.

(** The replies to the utterances [us] submitted one after the other from
    state [s], and the state after the last. *)
Fixpoint converse (respond : ChatState -> string -> string * ChatState)
    (s : ChatState) (us : list string) : list string * ChatState :=
  match us with
  | [] => ([], s)
  | u :: us' =>
      let (reply, s') := respond s u in
      let (replies, s'') := converse respond s' us' in
      (reply :: replies, s'')
  end.

(** The states the first handler can be called in once the mount effect
    has run. *)
Inductive reachable : ChatState -> Prop :=
| reachable_start : reachable awaiting_tax_request
| reachable_next s u :
    reachable s -> reachable (snd (Variant1.handleBotResponse s u)).

Definition is_greeting (m : Message) : bool :=
  match sender m with
  | bot => String.eqb (text m) greeting
  | user => false
  end.

Definition all_digits (s : string) : bool :=
  forallb CodeUnit.is_digit (list_ascii_of_string s).

Definition strip_minus (s : string) : string :=
  match s with
  | String c r => if Ascii.eqb c "-" then r else s
  | EmptyString => s
  end.

(** An optional minus sign, one or more digits, a period, two digits. *)
Definition two_decimals (s : string) : bool :=
  let body := strip_minus s in
  let k := String.length body in
  (4 <=? k)%nat
  && all_digits (substring 0 (k - 3) body)
  && String.eqb (substring (k - 3) 1 body) "."
  && all_digits (substring (k - 2) 2 body).

(** An utterance whose gross pay is [10 ^ 21]. *)
Definition large_slots : string :=
  "hours: 1000000000000000000000, rate: 1, state: NY, county: Kings, city: NYC".

(** A finite number of magnitude below [10 ^ 21]. *)
Definition fixed_range (x : Number.number) : bool :=
  match x with
  | S754_zero _ => true
  | S754_finite _ m e => (Number.floor_value m e <? 10 ^ 21)%Z
  | _ => false
  end.

(** ** Vocabulary of the further properties *)

(** The texts of the user's messages, in order. *)
Fixpoint user_texts (ms : list Message) : list string :=
  match ms with
  | [] => []
  | m :: ms' =>
      match sender m with
      | user => text m :: user_texts ms'
      | bot => user_texts ms'
      end
  end.

(** Utterances and the replies to them as the message list shows them:
    each utterance followed by its reply. *)
Fixpoint exchanges (us replies : list string) : list Message :=
  match us, replies with
  | u :: us', r :: replies' =>
      {| sender := user; text := u |}
      :: {| sender := bot; text := r |} :: exchanges us' replies'
  | _, _ => []
  end.

(** What a run keeps true: the list is the greeting and the exchanges of
    some utterances with the replies the handler gives them in turn from
    [awaiting_tax_request], and the state is the one after the last. *)
Definition conversation_of (respond : ChatState -> string -> string * ChatState)
    (c : Shell.Component) (us : list string) : Prop :=
  Shell.messages c
  = {| sender := bot; text := greeting |}
    :: exchanges us (fst (converse respond awaiting_tax_request us))
  /\ Shell.state c = snd (converse respond awaiting_tax_request us).

(** [captures_of r s c c']: the whole of [s] is a match of [r] that
    turns the captures [c] into [c']. *)
Inductive captures_of : Regex.regex -> string -> Regex.captures -> Regex.captures -> Prop :=
| captures_empty c : captures_of Regex.Empty EmptyString c c
| captures_unit cls ch c :
    cls ch = true -> captures_of (Regex.Unit cls) (String ch EmptyString) c c
| captures_cat r1 r2 s1 s2 c0 c1 c2 :
    captures_of r1 s1 c0 c1 -> captures_of r2 s2 c1 c2 ->
    captures_of (Regex.Cat r1 r2) (s1 ++ s2) c0 c2
| captures_greedy min max cls s c :
    Regex.all_in cls s = true ->
    min <= String.length s ->
    Regex.within max (String.length s) ->
    captures_of (Regex.Greedy min max cls) s c c
| captures_group i r s c0 c1 :
    captures_of r s c0 c1 ->
    captures_of (Regex.Group i r) s c0 (Regex.set_capture i s c1).

Fixpoint has_group (r : Regex.regex) : bool :=
  match r with
  | Regex.Cat r1 r2 => has_group r1 || has_group r2
  | Regex.Group _ _ => true
  | _ => false
  end.

(** One labelled field: the label in either case, white space, the
    value. *)
Definition field_text (label value : string) (s : string) : Prop :=
  exists l sp,
    s = l ++ sp ++ value
    /\ JSString.toLowerCase l = label
    /\ Regex.all_in CodeUnit.is_space sp = true.

(** The five fields in the order of the pattern, with text that stays on
    the line between them. *)
Definition laid_out (whole h r st co ci : string) : Prop :=
  exists f1 g1 f2 g2 f3 g3 f4 g4 f5,
    whole = f1 ++ g1 ++ f2 ++ g2 ++ f3 ++ g3 ++ f4 ++ g4 ++ f5
    /\ field_text "hours:" h f1 /\ field_text "rate:" r f2
    /\ field_text "state:" st f3 /\ field_text "county:" co f4
    /\ field_text "city:" ci f5
    /\ Regex.all_in Regex.dot g1 = true /\ Regex.all_in Regex.dot g2 = true
    /\ Regex.all_in Regex.dot g3 = true /\ Regex.all_in Regex.dot g4 = true
    /\ Regex.derives Slot.amount h /\ Regex.derives Slot.amount r
    /\ Regex.derives Slot.word st /\ Regex.derives Slot.word co
    /\ Regex.derives Slot.word ci.

(** The labels of the slot pattern, in its order. *)
Definition labels : list string :=
  ["hours:"; "rate:"; "state:"; "county:"; "city:"].

(** The texts [ls] occur in [u] one after the other, letter case apart. *)
Fixpoint in_order (u : string) (ls : list string) : Prop :=
  match ls with
  | [] => True
  | l :: ls' =>
      exists pre mid post,
        u = pre ++ mid ++ post
        /\ JSString.toLowerCase mid = l
        /\ in_order post ls'
  end.

(** Zero, a positive number or [Infinity]: not [NaN], not negative. *)
Definition is_nonneg (x : Number.number) : bool :=
  match x with
  | S754_nan => false
  | S754_zero s | S754_infinity s | S754_finite s _ _ => negb s
  end.

(** [NaN], or not negative. *)
Definition not_negative (x : Number.number) : bool :=
  match x with
  | S754_nan => true
  | _ => is_nonneg x
  end.

(** A non-empty run of word characters. *)
Definition is_name (t : string) : bool :=
  negb (Number.is_empty t) && Regex.all_in CodeUnit.is_word t.

(** Every class of the pattern holds of a code unit and of its lower
    case alike. *)
Fixpoint case_blind (r : Regex.regex) : Prop :=
  match r with
  | Regex.Empty => True
  | Regex.Unit cls => forall c, cls (CodeUnit.toLowerCase c) = cls c
  | Regex.Cat r1 r2 => case_blind r1 /\ case_blind r2
  | Regex.Greedy _ _ cls => forall c, cls (CodeUnit.toLowerCase c) = cls c
  | Regex.Group _ r1 => case_blind r1
  end.

(** The layout the prompts show: the five fields in order, a space after
    each colon, a comma and a space between the fields. *)
Definition format_slots (h r st co ci : string) : string :=
  "hours: " ++ h ++ ", rate: " ++ r ++ ", state: " ++ st
    ++ ", county: " ++ co ++ ", city: " ++ ci.

(** Digits, then possibly a period and further digits. *)
Definition is_amount (t : string) : bool :=
  let (a, rest) := Number.take_digits t in
  negb (Number.is_empty a)
  && match rest with
     | EmptyString => true
     | String c d => Slot.is_period c && all_digits d
     end.

(** [s] starts with [l], letter case apart. *)
Fixpoint starts_ci (l s : string) : bool :=
  match l with
  | EmptyString => true
  | String a l' =>
      match s with
      | String b s' =>
          Ascii.eqb (CodeUnit.canonicalize b) (CodeUnit.canonicalize a)
          && starts_ci l' s'
      | EmptyString => false
      end
  end.

(** [l] starts nowhere in [t], letter case apart. *)
Definition label_free (l t : string) : Prop :=
  forall t1 t2, t = t1 ++ t2 -> starts_ci l t2 = false.

(** [b] is empty or starts outside the class. *)
Definition stops (cls : ascii -> bool) (b : string) : bool :=
  match b with
  | EmptyString => true
  | String c _ => negb (cls c)
  end.

Definition has_colon (l : string) : bool :=
  existsb (Ascii.eqb ":") (list_ascii_of_string l).

(** No code unit of [l] is [c], letter case apart. *)
Definition avoids (c : ascii) (l : string) : bool :=
  forallb (fun a => negb (Ascii.eqb (CodeUnit.canonicalize c) (CodeUnit.canonicalize a)))
    (list_ascii_of_string l).

Definition after_first (s : string) : string :=
  match s with
  | EmptyString => EmptyString
  | String _ t => t
  end.

(** The pattern ends with a greedy run of the class [cls]: nothing but
    the closing of groups comes after it. *)
Inductive ends_with (cls : ascii -> bool) : Regex.regex -> Prop :=
| ends_greedy min : ends_with cls (Regex.Greedy min None cls)
| ends_group i r : ends_with cls r -> ends_with cls (Regex.Group i r)
| ends_cat r1 r2 : ends_with cls r2 -> ends_with cls (Regex.Cat r1 r2)
| ends_cat_empty r1 : ends_with cls r1 -> ends_with cls (Regex.Cat r1 Regex.Empty).

(** ** Strings *)

Lemma startsWith_spec (p s : string) :
  JSString.startsWith p s = true <-> exists post, s = p ++ post.
Proof.
  revert s. induction p as [|a p IH]; intros s; simpl.
  - split; [intros _; now exists s | reflexivity].
  - destruct s as [|b s].
    + split; [discriminate | intros [post H]; discriminate].
    + rewrite andb_true_iff, Ascii.eqb_eq, IH. split.
      * intros [-> [post ->]]. now exists post.
      * intros [post H]. injection H as -> ->. split; [reflexivity | now exists post].
Qed.

Lemma includes_unfold (s p : string) :
  JSString.includes s p =
  JSString.startsWith p s ||
  match s with
  | EmptyString => false
  | String _ s' => JSString.includes s' p
  end.
Proof. destruct s; reflexivity. Qed.

Lemma includes_spec (s p : string) :
  JSString.includes s p = true <-> exists pre post, s = pre ++ p ++ post.
Proof.
  split.
  - induction s as [|c s IH]; rewrite includes_unfold, orb_true_iff.
    + intros [H | H]; [|discriminate].
      apply startsWith_spec in H as [post ->]. now exists "", post.
    + intros [H | H].
      * apply startsWith_spec in H as [post ->]. now exists "", post.
      * destruct (IH H) as (pre & post & ->). now exists (String c pre), post.
  - intros (pre & post & ->). induction pre as [|c pre IH].
    + rewrite includes_unfold, orb_true_iff. left.
      apply startsWith_spec. now exists post.
    + rewrite includes_unfold, orb_true_iff. right. exact IH.
Qed.

Lemma toLowerCase_app (a b : string) :
  JSString.toLowerCase (a ++ b) = JSString.toLowerCase a ++ JSString.toLowerCase b.
Proof. induction a as [|c a IH]; simpl; [reflexivity | now rewrite IH]. Qed.

Lemma toLowerCase_split (u a b : string) :
  JSString.toLowerCase u = a ++ b ->
  exists u1 u2,
    u = u1 ++ u2 /\ JSString.toLowerCase u1 = a /\ JSString.toLowerCase u2 = b.
Proof.
  revert u. induction a as [|c a IH]; intros u H.
  - now exists "", u.
  - destruct u as [|d u]; [discriminate|].
    simpl in H. injection H as Hc Hu.
    destruct (IH u Hu) as (u1 & u2 & -> & H1 & H2).
    exists (String d u1), u2. simpl. now rewrite Hc, H1.
Qed.

(** The handlers' test [lowerInput.includes(w)] is containment apart from
    letter case. *)
Lemma includes_toLowerCase_iff (u w : string) :
  JSString.includes (JSString.toLowerCase u) w = true <-> contains_ci u w.
Proof.
  rewrite includes_spec. split.
  - intros (pre & post & H).
    apply toLowerCase_split in H as (u1 & u23 & -> & _ & H).
    apply toLowerCase_split in H as (u2 & u3 & -> & H2 & _).
    now exists u1, u2, u3.
  - intros (pre & mid & post & -> & <-).
    exists (JSString.toLowerCase pre), (JSString.toLowerCase post).
    now rewrite !toLowerCase_app.
Qed.

Lemma not_includes_toLowerCase_iff (u w : string) :
  JSString.includes (JSString.toLowerCase u) w = false <-> ~ contains_ci u w.
Proof.
  rewrite <- includes_toLowerCase_iff.
  destruct (JSString.includes (JSString.toLowerCase u) w); split; intros H;
    try reflexivity; try discriminate; try (intros H'; discriminate).
  now contradiction H.
Qed.

Lemma trimStart_all_space (s : string) :
  JSString.all_space s = true -> JSString.trimStart s = "".
Proof.
  unfold JSString.all_space.
  induction s as [|c s IH]; simpl; [reflexivity|].
  rewrite andb_true_iff. intros [-> H]. now apply IH.
Qed.

Lemma all_space_trimStart (s : string) :
  JSString.all_space (JSString.trimStart s) = true -> JSString.all_space s = true.
Proof.
  unfold JSString.all_space.
  induction s as [|c s IH]; simpl; [reflexivity|].
  destruct (CodeUnit.is_space c) eqn:E; simpl.
  - exact IH.
  - now rewrite E.
Qed.

Lemma trimEnd_empty (s : string) :
  JSString.trimEnd s = "" -> JSString.all_space s = true.
Proof.
  unfold JSString.all_space.
  induction s as [|c s IH]; simpl; [reflexivity|].
  destruct (JSString.trimEnd s); [|discriminate].
  destruct (CodeUnit.is_space c); [|discriminate].
  intros _. now apply IH.
Qed.

(** [input.trim()] is falsy exactly on the empty string and on white
    space alone. *)
Lemma trim_falsy_iff (s : string) :
  JSString.truthy (JSString.trim s) = false <-> JSString.all_space s = true.
Proof.
  unfold JSString.trim. split.
  - intros H. apply all_space_trimStart, trimEnd_empty.
    now destruct (JSString.trimEnd (JSString.trimStart s)).
  - intros H. now rewrite trimStart_all_space.
Qed.

(** ** The matcher and the language of a pattern *)

Lemma append_nil_r (s : string) : s ++ "" = s.
Proof. induction s as [|c s IH]; simpl; [reflexivity | now rewrite IH]. Qed.

Lemma append_assoc (a b c : string) : (a ++ b) ++ c = a ++ b ++ c.
Proof. induction a as [|x a IH]; simpl; [reflexivity | now rewrite IH]. Qed.

Lemma greedy_sound min max cls k caps (s : string) :
  forall n res,
    Regex.within max n ->
    Regex.greedy min max cls k caps n s = Some res ->
    exists s1 s2,
      s = s1 ++ s2
      /\ Regex.all_in cls s1 = true
      /\ min <= n + String.length s1
      /\ Regex.within max (n + String.length s1)
      /\ k s2 caps = Some res.
Proof.
  induction s as [|c s IH]; intros n res Hn H.
  - simpl in H. destruct (Nat.leb_spec min n); [|discriminate].
    exists "", "". simpl. rewrite Nat.add_0_r. now repeat split.
  - cbn [Regex.greedy] in H.
    assert (Hstop : (if (min <=? n)%nat then k (String c s) caps else None) = Some res ->
              exists s1 s2,
                String c s = s1 ++ s2
                /\ Regex.all_in cls s1 = true
                /\ min <= n + String.length s1
                /\ Regex.within max (n + String.length s1)
                /\ k s2 caps = Some res).
    { intros E. destruct (Nat.leb_spec min n); [|discriminate].
      exists "", (String c s). simpl. rewrite Nat.add_0_r. now repeat split. }
    destruct (cls c && Regex.below max n) eqn:Ec; [|now apply Hstop].
    apply andb_true_iff in Ec as [Hc Hb].
    destruct (Regex.greedy min max cls k caps (S n) s) as [res'|] eqn:Er;
      [|now apply Hstop].
    injection H as ->.
    assert (Hn' : Regex.within max (S n)).
    { destruct max as [m|]; simpl in *; [|exact I]. apply Nat.ltb_lt in Hb. lia. }
    destruct (IH (S n) res Hn' Er) as (s1 & s2 & -> & Ha & Hmin & Hmax & Hk).
    exists (String c s1), s2. simpl.
    replace (n + S (String.length s1)) with (S n + String.length s1) by lia.
    repeat split; try assumption.
    unfold Regex.all_in in *. simpl. now rewrite Hc.
Qed.

Lemma greedy_none min max cls k caps (s : string) :
  forall n s1 s2,
    Regex.greedy min max cls k caps n s = None ->
    s = s1 ++ s2 ->
    Regex.all_in cls s1 = true ->
    min <= n + String.length s1 ->
    Regex.within max (n + String.length s1) ->
    k s2 caps = None.
Proof.
  induction s as [|c s IH]; intros n s1 s2 H Hs Ha Hmin Hmax.
  - destruct s1; [|discriminate]. simpl in Hs. subst s2.
    simpl in *. rewrite Nat.add_0_r in Hmin.
    apply Nat.leb_le in Hmin. now rewrite Hmin in H.
  - cbn [Regex.greedy] in H.
    destruct s1 as [|c1 s1].
    + simpl in Hs. subst s2. simpl in Hmin. rewrite Nat.add_0_r in Hmin.
      apply Nat.leb_le in Hmin. rewrite Hmin in H.
      destruct (cls c && Regex.below max n); [|exact H].
      now destruct (Regex.greedy min max cls k caps (S n) s).
    + simpl in Hs. injection Hs as <- ->.
      unfold Regex.all_in in Ha. simpl in Ha.
      apply andb_true_iff in Ha as [Hc Ha].
      assert (Hb : Regex.below max n = true).
      { destruct max as [m|]; simpl in *; [|reflexivity]. apply Nat.ltb_lt. lia. }
      rewrite Hc, Hb in H. simpl in H.
      destruct (Regex.greedy min max cls k caps (S n) (s1 ++ s2)) eqn:Er;
        [discriminate|].
      apply (IH (S n) s1 s2 Er eq_refl Ha); simpl in *.
      * lia.
      * destruct max; simpl in *; [lia | exact I].
Qed.

(** A success of the matcher splits the input into a match of the
    pattern and a rest the continuation accepts. *)
Lemma matcher_sound (r : Regex.regex) :
  forall s caps k res,
    Regex.matcher r s caps k = Some res ->
    exists s1 s2 caps',
      s = s1 ++ s2 /\ Regex.derives r s1 /\ k s2 caps' = Some res.
Proof.
  induction r as [|cls|r1 IH1 r2 IH2|min max cls|i r IH];
    intros s caps k res H; simpl in H.
  - exists "", s, caps. repeat split; [constructor | exact H].
  - destruct s as [|c s]; [discriminate|].
    destruct (cls c) eqn:Ec; [|discriminate].
    exists (String c ""), s, caps. repeat split; [now constructor | exact H].
  - destruct (IH1 _ _ _ _ H) as (a & s' & caps1 & -> & Ha & H').
    destruct (IH2 _ _ _ _ H') as (b & s2 & caps2 & -> & Hb & Hk).
    exists (a ++ b), s2, caps2. rewrite append_assoc.
    repeat split; [now constructor | exact Hk].
  - assert (H0 : Regex.within max 0) by (destruct max; simpl; [lia | exact I]).
    destruct (greedy_sound _ _ _ _ _ _ _ _ H0 H) as (s1 & s2 & -> & Ha & Hmin & Hmax & Hk).
    exists s1, s2, caps. repeat split; [now constructor | exact Hk].
  - destruct (IH _ _ _ _ H) as (s1 & s2 & caps' & -> & Hd & Hk).
    eexists s1, s2, _. repeat split; [now constructor | exact Hk].
Qed.

(** A failure of the matcher means the continuation refuses the rest
    after every match of the pattern at the start of the input. *)
Lemma matcher_none (r : Regex.regex) :
  forall s caps k s1 s2,
    Regex.matcher r s caps k = None ->
    s = s1 ++ s2 ->
    Regex.derives r s1 ->
    exists caps', k s2 caps' = None.
Proof.
  induction r as [|cls|r1 IH1 r2 IH2|min max cls|i r IH];
    intros s caps k s1 s2 H Hs Hd; simpl in H; inversion Hd; subst.
  - now exists caps.
  - simpl in H.
    match goal with E : cls _ = true |- _ => rewrite E in H end.
    exists caps. exact H.
  - rewrite append_assoc in H.
    match goal with
    | D1 : Regex.derives r1 ?a, D2 : Regex.derives r2 ?b |- _ =>
        destruct (IH1 _ _ _ a (b ++ s2) H eq_refl D1) as (caps1 & H1);
        exact (IH2 _ _ _ b s2 H1 eq_refl D2)
    end.
  - exists caps. now apply (greedy_none _ _ _ _ _ _ 0 s1 s2 H eq_refl).
  - match goal with
    | D : Regex.derives r s1 |- _ =>
        destruct (IH _ _ _ s1 s2 H eq_refl D) as (caps' & Hk)
    end.
    eexists. exact Hk.
Qed.

Lemma match_here_spec (r : Regex.regex) (s : string) :
  Regex.match_here r s <> None <->
  exists s1 s2, s = s1 ++ s2 /\ Regex.derives r s1.
Proof.
  unfold Regex.match_here. split.
  - intros H.
    destruct (Regex.matcher r s _ _) as [res|] eqn:E; [|contradiction].
    destruct (matcher_sound _ _ _ _ _ E) as (s1 & s2 & _ & Hs & Hd & _).
    now exists s1, s2.
  - intros (s1 & s2 & Hs & Hd) E.
    destruct (matcher_none _ _ _ _ s1 s2 E Hs Hd) as (caps' & Hk).
    discriminate Hk.
Qed.

(** [exec] finds a match exactly when some part of the input is in the
    language of the pattern. *)
Lemma exec_spec (r : Regex.regex) (s : string) :
  Regex.exec r s <> None <-> Regex.occurs r s.
Proof.
  unfold Regex.occurs. induction s as [|c s IH]; simpl.
  - destruct (Regex.match_here r "") eqn:E.
    + split; [intros _ | discriminate].
      assert (H : Regex.match_here r "" <> None) by (rewrite E; discriminate).
      apply match_here_spec in H as (s1 & s2 & Hs & Hd).
      now exists "", s1, s2.
    + split; [contradiction|]. intros (pre & mid & post & Hs & Hd) _.
      destruct pre; [|discriminate]. simpl in Hs.
      assert (H : Regex.match_here r "" <> None).
      { apply match_here_spec. now exists mid, post. }
      contradiction.
  - destruct (Regex.match_here r (String c s)) eqn:E.
    + split; [intros _ | discriminate].
      assert (H : Regex.match_here r (String c s) <> None) by (rewrite E; discriminate).
      apply match_here_spec in H as (s1 & s2 & Hs & Hd).
      now exists "", s1, s2.
    + rewrite IH. split.
      * intros (pre & mid & post & -> & Hd). now exists (String c pre), mid, post.
      * intros (pre & mid & post & Hs & Hd).
        destruct pre as [|c' pre].
        -- simpl in Hs.
           assert (H : Regex.match_here r (String c s) <> None).
           { apply match_here_spec. now exists mid, post. }
           contradiction.
        -- simpl in Hs. injection Hs as _ ->. now exists pre, mid, post.
Qed.

(** The handlers' test [if (match)] is the presence of the fields. *)
Lemma matches_spec (u : string) :
  (exists m, Slot.matches u = Some m) <-> Slot.present u.
Proof.
  unfold Slot.present. rewrite <- exec_spec. fold (Slot.matches u).
  destruct (Slot.matches u) as [m|]; split.
  - discriminate.
  - intros _. now exists m.
  - intros [m H]. discriminate H.
  - contradiction.
Qed.

Lemma not_matches_spec (u : string) :
  Slot.matches u = None <-> ~ Slot.present u.
Proof.
  rewrite <- matches_spec.
  destruct (Slot.matches u) as [m|]; split.
  - discriminate.
  - intros H. contradiction H. now exists m.
  - intros _ [m H]. discriminate H.
  - reflexivity.
Qed.

(** ** Text of fixed-point amounts *)

Lemma length_app (a b : string) :
  String.length (a ++ b) = String.length a + String.length b.
Proof. induction a as [|c a IH]; simpl; [reflexivity | now rewrite IH]. Qed.

Lemma all_digits_app (a b : string) :
  all_digits (a ++ b) = all_digits a && all_digits b.
Proof.
  unfold all_digits. induction a as [|c a IH]; simpl; [reflexivity|].
  now rewrite IH, andb_assoc.
Qed.

Lemma substring_0_0 (s : string) : substring 0 0 s = "".
Proof. now destruct s. Qed.

Lemma substring_0_app (a b : string) :
  substring 0 (String.length a) (a ++ b) = a.
Proof.
  induction a as [|c a IH]; simpl; [apply substring_0_0 | now rewrite IH].
Qed.

Lemma substring_skip_app (a b : string) (n l : nat) :
  substring (String.length a + n) l (a ++ b) = substring n l b.
Proof. induction a as [|c a IH]; simpl; [reflexivity | exact IH]. Qed.

Lemma substring_all (s : string) : substring 0 (String.length s) s = s.
Proof. induction s as [|c s IH]; simpl; [reflexivity | now rewrite IH]. Qed.

Lemma string_split_at (s : string) (n : nat) :
  n <= String.length s ->
  s = substring 0 n s ++ substring n (String.length s - n) s.
Proof.
  revert n. induction s as [|c s IH]; intros n Hn; simpl in *.
  - now destruct n.
  - destruct n as [|n]; simpl.
    + now rewrite substring_all.
    + now rewrite <- IH by lia.
Qed.

Lemma length_substring (s : string) (n l : nat) :
  n + l <= String.length s -> String.length (substring n l s) = l.
Proof.
  revert n l. induction s as [|c s IH]; intros n l H; simpl in *.
  - destruct n, l; simpl in *; lia.
  - destruct n as [|n].
    + destruct l as [|l]; simpl; [reflexivity|]. now rewrite (IH 0) by lia.
    + apply IH. lia.
Qed.

Lemma all_digits_zeros (n : nat) : all_digits (Number.zeros n) = true.
Proof. induction n as [|n IH]; [reflexivity | exact IH]. Qed.

Lemma length_zeros (n : nat) : String.length (Number.zeros n) = n.
Proof. induction n as [|n IH]; simpl; [reflexivity | now rewrite IH]. Qed.

Lemma all_digits_uint (d : Decimal.uint) :
  all_digits (DecimalString.NilEmpty.string_of_uint d) = true.
Proof. induction d; simpl; try reflexivity; exact IHd. Qed.

Lemma decimal_digits (n : Z) :
  all_digits (Number.decimal n) = true /\ 1 <= String.length (Number.decimal n).
Proof.
  unfold Number.decimal, DecimalString.NilZero.string_of_uint.
  destruct (N.to_uint (Z.to_N n)) as [|d|d|d|d|d|d|d|d|d|d]; split;
    try reflexivity; try apply (all_digits_uint d); simpl; lia.
Qed.

Lemma digit_not_minus (c : ascii) :
  CodeUnit.is_digit c = true -> Ascii.eqb c "-" = false.
Proof.
  destruct (Ascii.eqb_spec c "-") as [-> | _]; [discriminate | reflexivity].
Qed.

(** Digits, a period and two digits, with or without a minus sign in
    front, are in the two-decimals form. *)
Lemma two_decimals_intro (negative : bool) (a b : string) :
  1 <= String.length a ->
  all_digits a = true ->
  all_digits b = true ->
  String.length b = 2 ->
  two_decimals ((if negative then "-" else "") ++ a ++ "." ++ b) = true.
Proof.
  intros La Da Db Lb.
  assert (Hbody : strip_minus ((if negative then "-" else "") ++ a ++ "." ++ b)
                  = a ++ "." ++ b).
  { destruct negative; [reflexivity|].
    destruct a as [|c a]; [simpl in La; lia|].
    simpl. unfold all_digits in Da. simpl in Da.
    apply andb_true_iff in Da as [Dc _]. now rewrite (digit_not_minus c Dc). }
  unfold two_decimals. rewrite Hbody.
  assert (Hlen : String.length (a ++ "." ++ b) = String.length a + 3).
  { rewrite !length_app, Lb. simpl. lia. }
  rewrite Hlen.
  replace (String.length a + 3 - 3) with (String.length a) by lia.
  replace (String.length a + 3 - 2) with (String.length a + 1) by lia.
  rewrite substring_0_app, Da.
  rewrite <- (Nat.add_0_r (String.length a)) at 2.
  rewrite !substring_skip_app.
  replace (4 <=? String.length a + 3)%nat with true
    by (symmetry; apply Nat.leb_le; lia).
  destruct b as [|b1 [|b2 [|b3 b]]]; try discriminate.
  simpl. now rewrite Db.
Qed.

(** The digits [toFixed] splits, padded to three at least. *)
Lemma padded_digits (n : Z) :
  let d := Number.decimal n in
  let k := String.length d in
  let p := if (k <=? 2)%nat then Number.zeros (2 + 1 - k) ++ d else d in
  all_digits p = true /\ 3 <= String.length p.
Proof.
  intros d k p. destruct (decimal_digits n) as [Dd Ld].
  fold d in Dd, Ld. fold k in Ld. subst p.
  destruct (Nat.leb_spec k 2).
  - rewrite all_digits_app, all_digits_zeros, Dd, length_app, length_zeros.
    fold k. split; [reflexivity | lia].
  - split; [exact Dd | fold k; lia].
Qed.

(** [toFixed(2)] of a finite number of magnitude below [10 ^ 21] has
    exactly two decimal places. *)
Lemma toFixed_two_decimals (x : Number.number) :
  fixed_range x = true -> two_decimals (Number.toFixed 2 x) = true.
Proof.
  destruct x as [sg | sg | | sg m e]; try discriminate.
  - intros _. reflexivity.
  - unfold fixed_range. intros H.
    unfold Number.toFixed.
    rewrite Z.leb_antisym, H. cbn [negb Nat.eqb].
    destruct (padded_digits (Number.scaled_round 2 m e)) as [Dp Lp].
    cbv zeta in Dp, Lp.
    set (p := if (String.length (Number.decimal (Number.scaled_round 2 m e)) <=? 2)%nat
              then _ else _) in *.
    set (k := String.length p) in *.
    pose proof (string_split_at p (k - 2) ltac:(lia)) as Hp.
    fold k in Hp. replace (k - (k - 2)) with 2 in Hp by lia.
    apply two_decimals_intro.
    + rewrite length_substring; fold k; lia.
    + rewrite Hp, all_digits_app in Dp. now apply andb_true_iff in Dp.
    + rewrite Hp, all_digits_app in Dp. now apply andb_true_iff in Dp.
    + apply length_substring. fold k. lia.
Qed.

(** ** The built-ins on known values *)

(** 0.1 is 0x3FB999999999999A. *)
Example tenth_bits :
  Number.of_decimal 1 (-1) = S754_finite false 7205759403792794 (-56).
Proof. vm_compute. reflexivity. Qed.

(** 0.12 + 0.05 is 0.16999999999999998, the number just below 0.17. *)
Example totalRate_bits :
  Estimate.totalRate = S754_finite false 6124895493223874 (-55)
  /\ Number.of_decimal 17 (-2) = S754_finite false 6124895493223875 (-55).
Proof. split; vm_compute; reflexivity. Qed.

Example parseFloat_values :
  Number.parseFloat "40" = Number.of_Z 40
  /\ Number.parseFloat "40." = Number.of_Z 40
  /\ Number.parseFloat "  -2.5e1x" = SFopp (Number.of_Z 25)
  /\ Number.parseFloat ".5" = Number.of_decimal 5 (-1)
  /\ Number.parseFloat "1e400" = Number.Infinity
  /\ Number.parseFloat "2e-324" = S754_zero false
  /\ Number.parseFloat "." = Number.NaN
  /\ Number.parseFloat "undefined" = Number.NaN.
Proof. repeat split; vm_compute; reflexivity. Qed.

Example toFixed_values :
  Number.toFixed 2 (Number.parseFloat "1.005") = "1.00"
  /\ Number.toFixed 2 (Number.parseFloat "0.005") = "0.01"
  /\ Number.toFixed 2 (Number.parseFloat "-0.001") = "-0.00"
  /\ Number.toFixed 0 (Number.parseFloat "2.5") = "3"
  /\ Number.toFixed 2 (Number.parseFloat "999999999999999900000")
     = "999999999999999868928.00"
  /\ Number.toFixed 2 (Number.parseFloat "1e23") = "1e+23"
  /\ Number.toFixed 2 (Number.parseFloat "123456789012345678901234567890")
     = "1.2345678901234568e+29"
  /\ Number.toFixed 2 (Number.parseFloat "1e400") = "Infinity"
  /\ Number.toFixed 2 (Number.sub Number.Infinity Number.Infinity) = "NaN".
Proof. repeat split; vm_compute; reflexivity. Qed.

(** The quantifiers are greedy (the last "rate:" is the one taken), the
    labels match in either case, a period may end a number, and [.] does
    not cross a line. *)
Example matches_values :
  Slot.matches "HOURS:40.5rate: 1 Rate: 3.state:a_b county: c, city: e f"
  = Some [ Some "HOURS:40.5rate: 1 Rate: 3.state:a_b county: c, city: e";
           Some "40.5"; Some "3."; Some "a_b"; Some "c"; Some "e" ]
  /\ Slot.matches "rate: 35, hours: 40, state: NY, county: Kings, city: NYC"
     = None
  /\ Slot.matches
       ("hours: 40, rate: 35," ++ nl ++ "state: NY, county: Kings, city: NYC")
     = None.
Proof. repeat split; vm_compute; reflexivity. Qed.

Example trim_values :
  JSString.trim ("  a b " ++ nl) = "a b"
  /\ JSString.trim (" " ++ nl ++ String (ascii_of_nat 160) "") = "".
Proof. split; reflexivity. Qed.

(** ** C1: the estimate *)

Lemma matched_details (u : string) (m : Regex.captures) :
  Slot.matches u = Some m ->
  Variant1.handleBotResponse awaiting_tax_details u
  = (Variant1.estimate_text m, awaiting_anything_else).
Proof. intros H. unfold Variant1.handleBotResponse. now rewrite H. Qed.

(** The estimate names the place and shows each amount after a dollar
    sign, as [toFixed(2)] writes it. *)
Lemma estimate_reports (m : Regex.captures) :
  JSString.includes (Variant1.estimate_text m)
    (Estimate.cityName m ++ ", " ++ Estimate.countyName m ++ " County, "
       ++ Estimate.stateName m) = true
  /\ forall x,
       In x [Estimate.grossPay m; Estimate.taxes m; Estimate.netPay m] ->
       JSString.includes (Variant1.estimate_text m)
         ("$" ++ Number.toFixed 2 x) = true.
Proof.
  unfold Variant1.estimate_text. split.
  - apply includes_spec. exists "Estimated taxes for ". eexists.
    rewrite !append_assoc. reflexivity.
  - intros x [<- | [<- | [<- | []]]]; apply includes_spec.
    + exists ("Estimated taxes for " ++ Estimate.cityName m ++ ", "
              ++ Estimate.countyName m ++ " County, " ++ Estimate.stateName m
              ++ ":" ++ nl ++ "Gross Pay: ").
      eexists. rewrite !append_assoc. reflexivity.
    + exists ("Estimated taxes for " ++ Estimate.cityName m ++ ", "
              ++ Estimate.countyName m ++ " County, " ++ Estimate.stateName m
              ++ ":" ++ nl
              ++ "Gross Pay: $" ++ Number.toFixed 2 (Estimate.grossPay m) ++ nl
              ++ "Taxes: ").
      eexists. rewrite !append_assoc. reflexivity.
    + exists ("Estimated taxes for " ++ Estimate.cityName m ++ ", "
              ++ Estimate.countyName m ++ " County, " ++ Estimate.stateName m
              ++ ":" ++ nl
              ++ "Gross Pay: $" ++ Number.toFixed 2 (Estimate.grossPay m) ++ nl
              ++ "Taxes: $" ++ Number.toFixed 2 (Estimate.taxes m) ++ nl
              ++ "Net Pay: ").
      eexists. rewrite !append_assoc. reflexivity.
Qed.

(** C1, as the code has it.  In [awaiting_tax_details] an utterance the
    slot pattern matches is answered with the estimate: gross pay is
    hours times rate, taxes are gross pay times (0.12 + 0.05), net pay is
    gross pay minus taxes, in binary64 arithmetic on the parsed captures;
    each amount is written by [toFixed(2)], which gives exactly two
    decimal places when the amount is finite and of magnitude below
    [10 ^ 21]; the state becomes [awaiting_anything_else].  For the
    utterance "hours: 40, rate: 35, state: NY, county: Kings, city: NYC"
    the reply has "NYC, Kings County, NY", "$1400.00", "$238.00" and
    "$1162.00" in it. *)
Theorem C1_details_estimate :
  (forall u,
     Slot.present u ->
     exists m,
       Slot.matches u = Some m
       /\ Variant1.handleBotResponse awaiting_tax_details u
          = (Variant1.estimate_text m, awaiting_anything_else)
       /\ Estimate.grossPay m
          = Number.mul (Number.parseFloat (Regex.capture m 1))
                       (Number.parseFloat (Regex.capture m 2))
       /\ Estimate.taxes m
          = Number.mul (Estimate.grossPay m)
              (Number.add (Number.of_decimal 12 (-2)) (Number.of_decimal 5 (-2)))
       /\ Estimate.netPay m
          = Number.sub (Estimate.grossPay m) (Estimate.taxes m)
       /\ (forall x,
             In x [Estimate.grossPay m; Estimate.taxes m; Estimate.netPay m] ->
             JSString.includes (Variant1.estimate_text m)
               ("$" ++ Number.toFixed 2 x) = true
             /\ (fixed_range x = true ->
                 two_decimals (Number.toFixed 2 x) = true)))
  /\ Variant1.handleBotResponse awaiting_tax_details example_slots
     = ("Estimated taxes for NYC, Kings County, NY:" ++ nl
        ++ "Gross Pay: $1400.00" ++ nl
        ++ "Taxes: $238.00" ++ nl
        ++ "Net Pay: $1162.00" ++ nl
        ++ "(Note: this is an estimate.)" ++ nl
        ++ nl
        ++ "Would you like help with anything else?",
        awaiting_anything_else)
  /\ (forall piece,
        In piece ["NYC, Kings County, NY"; "$1400.00"; "$238.00"; "$1162.00"] ->
        JSString.includes
          (fst (Variant1.handleBotResponse awaiting_tax_details example_slots))
          piece = true).
Proof.
  refine (conj _ (conj _ _)).
  - intros u Hu. apply matches_spec in Hu as [m Hm]. exists m.
    refine (conj Hm (conj (matched_details u m Hm)
              (conj eq_refl (conj eq_refl (conj eq_refl _))))).
    intros x Hx. split.
    + now apply estimate_reports.
    + apply toFixed_two_decimals.
  - vm_compute. reflexivity.
  - intros piece [<- | [<- | [<- | [<- | []]]]]; vm_compute; reflexivity.
Qed.

Lemma C1_details_estimate_witness :
  exists m,
    Slot.matches "Hours: 7.5 and rate: 20.10 in state: CA, county: Marin, city: Novato"
    = Some m
    /\ Variant1.handleBotResponse awaiting_tax_details
         "Hours: 7.5 and rate: 20.10 in state: CA, county: Marin, city: Novato"
       = (Variant1.estimate_text m, awaiting_anything_else).
Proof.
  destruct (proj1 C1_details_estimate
    "Hours: 7.5 and rate: 20.10 in state: CA, county: Marin, city: Novato")
    as (m & Hm & Hr & _).
  - apply matches_spec. eexists. vm_compute. reflexivity.
  - exists m. split; [exact Hm | exact Hr].
Defined.

(** The claim as the specification words it fails where the gross pay
    reaches [10 ^ 21]: [toFixed(2)] then writes the number in exponent
    notation, with no decimal places. *)
Lemma C1_two_decimals_counterexample :
  Slot.matches large_slots
  = Some [ Some large_slots; Some "1000000000000000000000"; Some "1";
           Some "NY"; Some "Kings"; Some "NYC" ]
  /\ Variant1.handleBotResponse awaiting_tax_details large_slots
     = ("Estimated taxes for NYC, Kings County, NY:" ++ nl
        ++ "Gross Pay: $1e+21" ++ nl
        ++ "Taxes: $170000000000000000000.00" ++ nl
        ++ "Net Pay: $830000000000000000000.00" ++ nl
        ++ "(Note: this is an estimate.)" ++ nl
        ++ nl
        ++ "Would you like help with anything else?",
        awaiting_anything_else)
  /\ two_decimals
       (Number.toFixed 2
          (Number.mul (Number.parseFloat "1000000000000000000000")
                      (Number.parseFloat "1"))) = false.
Proof. repeat split; vm_compute; reflexivity. Qed.

(** ** C2: retries in [awaiting_tax_details] *)

Lemma unmatched_details (u : string) :
  ~ Slot.present u ->
  Variant1.handleBotResponse awaiting_tax_details u
  = (retry_prompt, awaiting_tax_details).
Proof.
  intros H. apply not_matches_spec in H.
  unfold Variant1.handleBotResponse. now rewrite H.
Qed.

(** The retry prompt is a text of its own: the details prompt without
    its first word, and not the instructions of [awaiting_tax_request]. *)
Lemma retry_prompt_text :
  details_prompt = "Sure! " ++ retry_prompt /\ retry_prompt <> instructions.
Proof. split; [reflexivity | discriminate]. Qed.

(** C2, as the code has it.  In [awaiting_tax_details] an utterance the
    slot pattern does not match gets the retry prompt of line 142 and
    leaves the state as it is; so any sequence of such utterances, one
    repeated any number of times in particular, gets the same prompt each
    time and ends in [awaiting_tax_details]. *)
Theorem C2_unmatched_details_retry (us : list string) :
  Forall (fun u => ~ Slot.present u) us ->
  (forall u, In u us ->
     Variant1.handleBotResponse awaiting_tax_details u
     = (retry_prompt, awaiting_tax_details))
  /\ converse Variant1.handleBotResponse awaiting_tax_details us
     = (repeat retry_prompt (List.length us), awaiting_tax_details)
  /\ (forall u n, In u us ->
     converse Variant1.handleBotResponse awaiting_tax_details (repeat u n)
     = (repeat retry_prompt n, awaiting_tax_details)).
Proof.
  intros Hus. rewrite Forall_forall in Hus.
  assert (Hall : forall vs, (forall v, In v vs -> ~ Slot.present v) ->
            converse Variant1.handleBotResponse awaiting_tax_details vs
            = (repeat retry_prompt (List.length vs), awaiting_tax_details)).
  { induction vs as [|v vs IH]; intros Hvs; [reflexivity|].
    cbn [converse List.length repeat].
    rewrite (unmatched_details v) by (apply Hvs; now left).
    rewrite IH by (intros w Hw; apply Hvs; now right).
    reflexivity. }
  refine (conj _ (conj _ _)).
  - intros u Hu. now apply unmatched_details, Hus.
  - now apply Hall.
  - intros u n Hu.
    rewrite Hall, repeat_length; [reflexivity|].
    intros v Hv. apply repeat_spec in Hv as ->. now apply Hus.
Qed.

Lemma C2_unmatched_details_retry_witness :
  converse Variant1.handleBotResponse awaiting_tax_details
    ["I don't have that info"; "hours: forty"; "I don't have that info"]
  = ([retry_prompt; retry_prompt; retry_prompt], awaiting_tax_details).
Proof.
  apply (C2_unmatched_details_retry
           ["I don't have that info"; "hours: forty"; "I don't have that info"]).
  repeat constructor; apply not_matches_spec; reflexivity.
Defined.

(** The claim as the specification words it names the instructional
    prompt, the reply of [awaiting_tax_request] to an utterance without
    a keyword.  The same utterance gets another text in
    [awaiting_tax_details]. *)
Lemma C2_instructions_counterexample :
  ~ Slot.present "I don't have that info"
  /\ fst (Variant1.handleBotResponse awaiting_tax_request "I don't have that info")
     = instructions
  /\ Variant1.handleBotResponse awaiting_tax_details "I don't have that info"
     = (retry_prompt, awaiting_tax_details)
  /\ fst (Variant1.handleBotResponse awaiting_tax_details "I don't have that info")
     <> instructions.
Proof.
  refine (conj _ (conj _ (conj _ _))).
  - apply not_matches_spec. reflexivity.
  - reflexivity.
  - reflexivity.
  - vm_compute. discriminate.
Qed.

(** ** C3, C4: the keyword dispatch *)

Ltac case_includes :=
  repeat match goal with
  | H : JSString.includes _ _ = _ |- _ => rewrite H
  | H : contains_ci _ _ |- _ => apply includes_toLowerCase_iff in H
  | H : ~ contains_ci _ _ |- _ => apply not_includes_toLowerCase_iff in H
  end.

(** C3. In [awaiting_tax_request]: an utterance with "tax" in it (letter
    case apart) gets the details prompt and moves to
    [awaiting_tax_details]; otherwise one with "no" in it gets the
    farewell and moves to [awaiting_anything_else]; any other gets the
    instructions and leaves the state as it is.  "tax" is tested first,
    so an utterance with both takes the first branch. *)
Theorem C3_awaiting_tax_request (u : string) :
  (contains_ci u "tax" ->
     Variant1.handleBotResponse awaiting_tax_request u
     = (details_prompt, awaiting_tax_details))
  /\ (~ contains_ci u "tax" -> contains_ci u "no" ->
     Variant1.handleBotResponse awaiting_tax_request u
     = (farewell, awaiting_anything_else))
  /\ (~ contains_ci u "tax" -> ~ contains_ci u "no" ->
     Variant1.handleBotResponse awaiting_tax_request u
     = (instructions, awaiting_tax_request))
  /\ (contains_ci u "tax" -> contains_ci u "no" ->
     Variant1.handleBotResponse awaiting_tax_request u
     = (details_prompt, awaiting_tax_details)).
Proof.
  unfold Variant1.handleBotResponse.
  repeat split; intros; case_includes; reflexivity.
Qed.

Lemma C3_awaiting_tax_request_witness :
  Variant1.handleBotResponse awaiting_tax_request "I need tax help"
  = (details_prompt, awaiting_tax_details)
  /\ Variant1.handleBotResponse awaiting_tax_request "no thanks"
  = (farewell, awaiting_anything_else)
  /\ Variant1.handleBotResponse awaiting_tax_request "hello"
  = (instructions, awaiting_tax_request)
  /\ Variant1.handleBotResponse awaiting_tax_request "No TAXES"
  = (details_prompt, awaiting_tax_details).
Proof.
  refine (conj _ (conj _ (conj _ _))).
  - apply (proj1 (C3_awaiting_tax_request "I need tax help")).
    apply includes_toLowerCase_iff. reflexivity.
  - apply (proj1 (proj2 (C3_awaiting_tax_request "no thanks"))).
    + apply not_includes_toLowerCase_iff. reflexivity.
    + apply includes_toLowerCase_iff. reflexivity.
  - apply (proj1 (proj2 (proj2 (C3_awaiting_tax_request "hello")))).
    + apply not_includes_toLowerCase_iff. reflexivity.
    + apply not_includes_toLowerCase_iff. reflexivity.
  - apply (proj2 (proj2 (proj2 (C3_awaiting_tax_request "No TAXES")))).
    + apply includes_toLowerCase_iff. reflexivity.
    + apply includes_toLowerCase_iff. reflexivity.
Defined.

(** C4. In [awaiting_anything_else]: an utterance with "no" in it
    (letter case apart) gets the farewell and moves to
    [awaiting_tax_request]; otherwise one with "tax" in it gets the
    details prompt and moves to [awaiting_tax_details]; any other gets
    the fallback reply and moves to [awaiting_tax_request].  "no" is
    tested first, so an utterance with both takes the first branch. *)
Theorem C4_awaiting_anything_else (u : string) :
  (contains_ci u "no" ->
     Variant1.handleBotResponse awaiting_anything_else u
     = (farewell, awaiting_tax_request))
  /\ (~ contains_ci u "no" -> contains_ci u "tax" ->
     Variant1.handleBotResponse awaiting_anything_else u
     = (details_prompt, awaiting_tax_details))
  /\ (~ contains_ci u "no" -> ~ contains_ci u "tax" ->
     Variant1.handleBotResponse awaiting_anything_else u
     = (fallback, awaiting_tax_request))
  /\ (contains_ci u "no" -> contains_ci u "tax" ->
     Variant1.handleBotResponse awaiting_anything_else u
     = (farewell, awaiting_tax_request)).
Proof.
  unfold Variant1.handleBotResponse.
  repeat split; intros; case_includes; reflexivity.
Qed.

Lemma C4_awaiting_anything_else_witness :
  Variant1.handleBotResponse awaiting_anything_else "no thanks"
  = (farewell, awaiting_tax_request)
  /\ Variant1.handleBotResponse awaiting_anything_else "more Tax please"
  = (details_prompt, awaiting_tax_details)
  /\ Variant1.handleBotResponse awaiting_anything_else "hello"
  = (fallback, awaiting_tax_request)
  /\ Variant1.handleBotResponse awaiting_anything_else "No TAXES"
  = (farewell, awaiting_tax_request).
Proof.
  refine (conj _ (conj _ (conj _ _))).
  - apply (proj1 (C4_awaiting_anything_else "no thanks")).
    apply includes_toLowerCase_iff. reflexivity.
  - apply (proj1 (proj2 (C4_awaiting_anything_else "more Tax please"))).
    + apply not_includes_toLowerCase_iff. reflexivity.
    + apply includes_toLowerCase_iff. reflexivity.
  - apply (proj1 (proj2 (proj2 (C4_awaiting_anything_else "hello")))).
    + apply not_includes_toLowerCase_iff. reflexivity.
    + apply not_includes_toLowerCase_iff. reflexivity.
  - apply (proj2 (proj2 (proj2 (C4_awaiting_anything_else "No TAXES")))).
    + apply includes_toLowerCase_iff. reflexivity.
    + apply includes_toLowerCase_iff. reflexivity.
Defined.

(** ** C5: the two handlers compared *)

Lemma append_inv_head (p a b : string) : p ++ a = p ++ b -> a = b.
Proof.
  induction p as [|c p IH]; simpl; intros H; [exact H|].
  injection H as H. now apply IH.
Qed.

Lemma estimate_texts_differ (m : Regex.captures) :
  Variant1.estimate_text m <> Variant2.estimate_text m.
Proof.
  unfold Variant1.estimate_text, Variant2.estimate_text. intros H.
  repeat (apply append_inv_head in H).
  discriminate H.
Qed.

(** C5, as the code has it.  The two handlers give the same next state
    on every state and utterance but in [awaiting_anything_else] on an
    utterance with "no" in it, where both reply with the farewell and the
    first moves to [awaiting_tax_request] while the second stays in
    [awaiting_anything_else].  They give the same reply on every state
    and utterance but in [awaiting_tax_details] on an utterance the slot
    pattern matches, where the second indents the lines of the estimate
    and the replies differ. *)
Theorem C5_handlers_compared (s : ChatState) (u : string) :
  (~ (s = awaiting_anything_else /\ contains_ci u "no") ->
     snd (Variant1.handleBotResponse s u) = snd (Variant2.handleBotResponse s u))
  /\ (s = awaiting_anything_else -> contains_ci u "no" ->
     Variant1.handleBotResponse s u = (farewell, awaiting_tax_request)
     /\ Variant2.handleBotResponse s u = (farewell, awaiting_anything_else))
  /\ (~ (s = awaiting_tax_details /\ Slot.present u) ->
     fst (Variant1.handleBotResponse s u) = fst (Variant2.handleBotResponse s u))
  /\ (s = awaiting_tax_details -> forall m, Slot.matches u = Some m ->
     Variant1.handleBotResponse s u
     = (Variant1.estimate_text m, awaiting_anything_else)
     /\ Variant2.handleBotResponse s u
        = (Variant2.estimate_text m, awaiting_anything_else)
     /\ Variant1.estimate_text m <> Variant2.estimate_text m).
Proof.
  refine (conj _ (conj _ (conj _ _))).
  - intros H. unfold Variant1.handleBotResponse, Variant2.handleBotResponse.
    destruct s; try reflexivity.
    + now destruct (Slot.matches u).
    + destruct (JSString.includes (JSString.toLowerCase u) "no") eqn:E;
        [|reflexivity].
      contradiction H. split; [reflexivity | now apply includes_toLowerCase_iff].
  - intros -> H. apply includes_toLowerCase_iff in H.
    unfold Variant1.handleBotResponse, Variant2.handleBotResponse.
    now rewrite H.
  - intros H. unfold Variant1.handleBotResponse, Variant2.handleBotResponse.
    destruct s; try reflexivity.
    + destruct (Slot.matches u) as [m|] eqn:E; [|reflexivity].
      contradiction H. split; [reflexivity|].
      apply matches_spec. now exists m.
    + now destruct (JSString.includes (JSString.toLowerCase u) "no").
  - intros -> m H.
    unfold Variant1.handleBotResponse, Variant2.handleBotResponse. rewrite H.
    repeat split. apply estimate_texts_differ.
Qed.

Lemma C5_handlers_compared_witness :
  snd (Variant1.handleBotResponse awaiting_tax_request "no thanks")
  = snd (Variant2.handleBotResponse awaiting_tax_request "no thanks")
  /\ (Variant1.handleBotResponse awaiting_anything_else "no thanks"
      = (farewell, awaiting_tax_request)
      /\ Variant2.handleBotResponse awaiting_anything_else "no thanks"
         = (farewell, awaiting_anything_else))
  /\ fst (Variant1.handleBotResponse awaiting_tax_details "I don't have that info")
     = fst (Variant2.handleBotResponse awaiting_tax_details "I don't have that info").
Proof.
  refine (conj _ (conj _ _)).
  - apply (proj1 (C5_handlers_compared awaiting_tax_request "no thanks")).
    intros [H _]. discriminate H.
  - apply (proj1 (proj2 (C5_handlers_compared awaiting_anything_else "no thanks")));
      [reflexivity|].
    apply includes_toLowerCase_iff. reflexivity.
  - apply (proj1 (proj2 (proj2
             (C5_handlers_compared awaiting_tax_details "I don't have that info")))).
    intros [_ H]. apply not_matches_spec in H; [exact H | reflexivity].
Defined.

(** The claim as the specification words it fails in
    [awaiting_tax_details], a state it does not except: on the example
    utterance, which has no "no" in it, the replies differ. *)
Lemma C5_replies_counterexample :
  ~ (awaiting_tax_details = awaiting_anything_else
     /\ contains_ci example_slots "no")
  /\ Variant1.handleBotResponse awaiting_tax_details example_slots
     <> Variant2.handleBotResponse awaiting_tax_details example_slots
  /\ fst (Variant2.handleBotResponse awaiting_tax_details example_slots)
     = "Estimated taxes for NYC, Kings County, NY:" ++ nl
       ++ "            Gross Pay: $1400.00" ++ nl
       ++ "            Taxes: $238.00" ++ nl
       ++ "            Net Pay: $1162.00" ++ nl
       ++ "            (Note: this is an estimate.)" ++ nl
       ++ nl
       ++ "            Would you like help with anything else?".
Proof.
  refine (conj _ (conj _ _)).
  - intros [H _]. discriminate H.
  - vm_compute. discriminate.
  - vm_compute. reflexivity.
Qed.

(** ** C6: blank input *)

Local Open Scope list_scope.

Lemma handleSend_blank (respond : ChatState -> string -> string * ChatState)
    (c : Shell.Component) :
  JSString.all_space (Shell.input c) = true -> Shell.handleSend respond c = c.
Proof.
  intros H. apply trim_falsy_iff in H.
  unfold Shell.handleSend. now rewrite H.
Qed.

Lemma handleSend_not_blank (respond : ChatState -> string -> string * ChatState)
    (c : Shell.Component) :
  JSString.all_space (Shell.input c) = false ->
  Shell.handleSend respond c
  = {| Shell.messages :=
         Shell.messages c
         ++ [ {| sender := user; text := Shell.input c |};
              {| sender := bot;
                 text := fst (respond (Shell.state c) (Shell.input c)) |} ];
       Shell.input := "";
       Shell.state := snd (respond (Shell.state c) (Shell.input c)) |}.
Proof.
  intros H. unfold Shell.handleSend.
  destruct (JSString.truthy (JSString.trim (Shell.input c))) eqn:E.
  - simpl. destruct (respond (Shell.state c) (Shell.input c)). simpl.
    now rewrite <- app_assoc.
  - apply trim_falsy_iff in E. congruence.
Qed.

(** C6. Submitting an input that is empty or white space alone, by the
    button or by the Enter key, leaves the component as it was, the
    message list and the conversation state with it, whatever the
    handler would have answered: the handler is not called. *)
Theorem C6_blank_input_ignored
    (respond : ChatState -> string -> string * ChatState)
    (c : Shell.Component) :
  JSString.all_space (Shell.input c) = true ->
  Shell.handleSend respond c = c
  /\ (forall key, Shell.handleKeyPress respond key c = c)
  /\ Shell.messages (Shell.handle respond Shell.Click c) = Shell.messages c
  /\ Shell.state (Shell.handle respond Shell.Click c) = Shell.state c.
Proof.
  intros H. pose proof (handleSend_blank respond c H) as Hs.
  refine (conj Hs (conj _ (conj _ _))).
  - intros key. unfold Shell.handleKeyPress. now destruct (String.eqb key "Enter").
  - simpl. now rewrite Hs.
  - simpl. now rewrite Hs.
Qed.

Lemma C6_blank_input_ignored_witness :
  let c := Shell.setInput "   " Shell.session_start in
  Variant1.handleSend c = c
  /\ (forall key, Shell.handleKeyPress Variant1.handleBotResponse key c = c)
  /\ Shell.messages (Variant1.handle Shell.Click c) = Shell.messages c
  /\ Shell.state (Variant1.handle Shell.Click c) = Shell.state c.
Proof.
  apply (C6_blank_input_ignored Variant1.handleBotResponse
           (Shell.setInput "   " Shell.session_start)).
  reflexivity.
Defined.

(** ** C7: the default branch *)

(** C7. In [idle], and so in any state that is none of the three the
    switch names, every utterance gets the fallback reply and the state
    becomes [awaiting_anything_else]. *)
Theorem C7_default_branch (s : ChatState) (u : string) :
  s <> awaiting_tax_request ->
  s <> awaiting_tax_details ->
  s <> awaiting_anything_else ->
  s = idle
  /\ Variant1.handleBotResponse s u = (fallback, awaiting_anything_else).
Proof.
  intros H1 H2 H3. destruct s; try contradiction; now split.
Qed.

Lemma C7_default_branch_witness :
  idle = idle
  /\ Variant1.handleBotResponse idle "calculate my taxes"
     = (fallback, awaiting_anything_else).
Proof.
  apply (C7_default_branch idle "calculate my taxes"); discriminate.
Defined.

(** ** C8: the message list *)

(** No reply of the first handler is the greeting. *)
Lemma reply_not_greeting (s : ChatState) (u : string) :
  String.eqb (fst (Variant1.handleBotResponse s u)) greeting = false.
Proof.
  unfold Variant1.handleBotResponse.
  destruct s; simpl;
    repeat match goal with
    | |- context [if ?b then _ else _] => destruct b
    | |- context [match ?o with Some _ => _ | None => _ end] => destruct o
    end; reflexivity.
Qed.

(** What one event appends to the message list: nothing, or the user's
    text and the reply to it. *)
Lemma handle_appends (e : Shell.Event) (c : Shell.Component) :
  Shell.messages (Variant1.handle e c) = Shell.messages c
  \/ Shell.messages (Variant1.handle e c)
     = Shell.messages c
       ++ [ {| sender := user; text := Shell.input c |};
            {| sender := bot;
               text := fst (Variant1.handleBotResponse (Shell.state c) (Shell.input c)) |} ].
Proof.
  assert (Hsend :
    Shell.messages (Variant1.handleSend c) = Shell.messages c
    \/ Shell.messages (Variant1.handleSend c)
       = Shell.messages c
         ++ [ {| sender := user; text := Shell.input c |};
              {| sender := bot;
                 text := fst (Variant1.handleBotResponse (Shell.state c) (Shell.input c)) |} ]).
  { unfold Variant1.handleSend.
    destruct (JSString.all_space (Shell.input c)) eqn:E.
    - left. now rewrite handleSend_blank.
    - right. now rewrite handleSend_not_blank. }
  destruct e as [v | k |]; simpl; [now left | | exact Hsend].
  unfold Shell.handleKeyPress. destruct (String.eqb k "Enter"); [exact Hsend | now left].
Qed.

Lemma handle_appends_no_greeting (e : Shell.Event) (c : Shell.Component) :
  exists added,
    Shell.messages (Variant1.handle e c) = Shell.messages c ++ added
    /\ filter is_greeting added = [].
Proof.
  destruct (handle_appends e c) as [H | H]; rewrite H.
  - exists []. now rewrite app_nil_r.
  - eexists. split; [reflexivity|].
    cbn [filter]. unfold is_greeting. cbn [sender text].
    now rewrite reply_not_greeting.
Qed.

Lemma run_appends_no_greeting (es : list Shell.Event) (c : Shell.Component) :
  exists added,
    Shell.messages (Variant1.run es c) = Shell.messages c ++ added
    /\ filter is_greeting added = [].
Proof.
  unfold Variant1.run, Shell.run.
  revert c. induction es as [|e es IH]; intros c; simpl.
  - exists []. now rewrite app_nil_r.
  - destruct (IH (Shell.handle Variant1.handleBotResponse e c)) as (a2 & H2 & F2).
    destruct (handle_appends_no_greeting e c) as (a1 & H1 & F1).
    unfold Variant1.handle in H1.
    exists (a1 ++ a2). rewrite H2, H1, <- app_assoc. split; [reflexivity|].
    now rewrite filter_app, F1, F2.
Qed.

(** C8. The message list only grows at its end.  The mount effect makes
    it the greeting alone and sets [awaiting_tax_request]; a submission
    that is not blank appends the user's text and then the reply, two
    messages; every event leaves the earlier messages in place and in
    order; so along every run the list starts with the greeting, which
    occurs once. *)
Theorem C8_messages_append_only :
  Shell.messages Shell.session_start = [ {| sender := bot; text := greeting |} ]
  /\ Shell.state Shell.session_start = awaiting_tax_request
  /\ (forall c,
        JSString.all_space (Shell.input c) = false ->
        Shell.messages (Variant1.handleSend c)
        = Shell.messages c
          ++ [ {| sender := user; text := Shell.input c |};
               {| sender := bot;
                  text := fst (Variant1.handleBotResponse (Shell.state c) (Shell.input c)) |} ])
  /\ (forall e c,
        exists added,
          Shell.messages (Variant1.handle e c) = Shell.messages c ++ added
          /\ (added = [] \/ List.length added = 2))
  /\ (forall es c,
        exists added,
          Shell.messages (Variant1.run es c) = Shell.messages c ++ added)
  /\ (forall es,
        exists rest,
          Shell.messages (Variant1.run es Shell.session_start)
          = {| sender := bot; text := greeting |} :: rest
          /\ List.length (filter is_greeting
               (Shell.messages (Variant1.run es Shell.session_start))) = 1).
Proof.
  refine (conj eq_refl (conj eq_refl (conj _ (conj _ (conj _ _))))).
  - intros c H. unfold Variant1.handleSend. now rewrite handleSend_not_blank.
  - intros e c. destruct (handle_appends e c) as [H | H]; rewrite H.
    + exists []. rewrite app_nil_r. now split; [|left].
    + eexists. split; [reflexivity | now right].
  - intros es c. destruct (run_appends_no_greeting es c) as (added & H & _).
    now exists added.
  - intros es.
    destruct (run_appends_no_greeting es Shell.session_start) as (added & H & F).
    exists added. rewrite H. split; [reflexivity|].
    rewrite filter_app, F. reflexivity.
Qed.

Lemma C8_messages_append_only_witness :
  Shell.messages
    (Variant1.handleSend (Shell.setInput "I need tax help" Shell.session_start))
  = [ {| sender := bot; text := greeting |};
      {| sender := user; text := "I need tax help" |};
      {| sender := bot; text := details_prompt |} ].
Proof.
  apply (proj1 (proj2 (proj2 C8_messages_append_only))
           (Shell.setInput "I need tax help" Shell.session_start)).
  reflexivity.
Defined.

Local Open Scope string_scope.

(** ** C9: [idle] is left for good *)

(** Every arrow of the first handler ends in one of the three named
    states. *)
Lemma next_state_named (s : ChatState) (u : string) :
  s <> idle ->
  let next := snd (Variant1.handleBotResponse s u) in
  next = awaiting_tax_request
  \/ next = awaiting_tax_details
  \/ next = awaiting_anything_else.
Proof.
  intros Hs. unfold Variant1.handleBotResponse.
  destruct s; try contradiction; simpl;
    repeat match goal with
    | |- context [if ?b then _ else _] => destruct b
    | |- context [match ?o with Some _ => _ | None => _ end] => destruct o
    end; simpl; auto.
Qed.

Lemma reachable_not_idle (s : ChatState) : reachable s -> s <> idle.
Proof.
  induction 1 as [|s u _ IH]; [discriminate|].
  destruct (next_state_named s u IH) as [H | [H | H]]; rewrite H; discriminate.
Qed.

(** C9. Once the mount effect has set [awaiting_tax_request], [idle] is
    not entered again: from every reachable state and on every utterance
    the next state is [awaiting_tax_request], [awaiting_tax_details] or
    [awaiting_anything_else], and it is reachable in turn. *)
Theorem C9_idle_not_reentered (s : ChatState) (u : string) :
  reachable s ->
  let next := snd (Variant1.handleBotResponse s u) in
  (next = awaiting_tax_request
   \/ next = awaiting_tax_details
   \/ next = awaiting_anything_else)
  /\ next <> idle
  /\ reachable next.
Proof.
  intros Hs next.
  assert (Hn : reachable next) by now apply reachable_next.
  repeat split; [|now apply reachable_not_idle | exact Hn].
  apply next_state_named. now apply reachable_not_idle.
Qed.

Lemma C9_idle_not_reentered_witness :
  let next := snd (Variant1.handleBotResponse awaiting_tax_request "tax") in
  (next = awaiting_tax_request
   \/ next = awaiting_tax_details
   \/ next = awaiting_anything_else)
  /\ next <> idle
  /\ reachable next.
Proof.
  apply (C9_idle_not_reentered awaiting_tax_request "tax"), reachable_start.
Defined.

(** The state of the component is reachable along every run. *)
Lemma run_state_reachable (es : list Shell.Event) (c : Shell.Component) :
  reachable (Shell.state c) ->
  reachable (Shell.state (Variant1.run es c)).
Proof.
  unfold Variant1.run, Shell.run.
  revert c. induction es as [|e es IH]; intros c Hc; simpl; [exact Hc|].
  apply IH.
  assert (Hsend : reachable (Shell.state (Shell.handleSend Variant1.handleBotResponse c))).
  { unfold Shell.handleSend.
    destruct (negb _); [exact Hc|].
    pose proof (reachable_next _ (Shell.input c) Hc) as Hn.
    destruct (Variant1.handleBotResponse (Shell.state c) (Shell.input c)).
    exact Hn. }
  destruct e as [v | k |]; simpl; [exact Hc | | exact Hsend].
  unfold Shell.handleKeyPress. now destruct (String.eqb k "Enter").
Qed.

(** * Further properties

    ** The component and the two handlers *)

Local Open Scope list_scope.

Lemma converse_snoc (respond : ChatState -> string -> string * ChatState)
    (us : list string) (u : string) (s : ChatState) :
  converse respond s (us ++ [u])
  = (fst (converse respond s us)
       ++ [fst (respond (snd (converse respond s us)) u)],
     snd (respond (snd (converse respond s us)) u)).
Proof.
  revert s. induction us as [|v us IH]; intros s; simpl.
  - now destruct (respond s u).
  - destruct (respond s v) as [r s']. rewrite IH.
    now destruct (converse respond s' us).
Qed.

Lemma converse_length (respond : ChatState -> string -> string * ChatState)
    (us : list string) (s : ChatState) :
  List.length (fst (converse respond s us)) = List.length us.
Proof.
  revert s. induction us as [|v us IH]; intros s; simpl; [reflexivity|].
  destruct (respond s v) as [r s']. specialize (IH s').
  destruct (converse respond s' us). simpl in *. now rewrite IH.
Qed.

Lemma exchanges_snoc (us rs : list string) (u r : string) :
  List.length rs = List.length us ->
  exchanges (us ++ [u]) (rs ++ [r])
  = exchanges us rs
    ++ [ {| sender := user; text := u |}; {| sender := bot; text := r |} ].
Proof.
  revert rs. induction us as [|v us IH]; intros [|q rs] H; simpl in *;
    try discriminate; [reflexivity|].
  now rewrite IH by lia.
Qed.

Lemma user_texts_exchanges (us rs : list string) :
  List.length rs = List.length us -> user_texts (exchanges us rs) = us.
Proof.
  revert rs. induction us as [|v us IH]; intros [|q rs] H; simpl in *;
    try discriminate; [reflexivity|].
  now rewrite IH by lia.
Qed.

Lemma handleSend_conversation
    (respond : ChatState -> string -> string * ChatState)
    (c : Shell.Component) (us : list string) :
  conversation_of respond c us ->
  exists us', conversation_of respond (Shell.handleSend respond c) us'.
Proof.
  intros [Hm Hs].
  destruct (JSString.all_space (Shell.input c)) eqn:E.
  - exists us. rewrite handleSend_blank by exact E. now split.
  - exists (us ++ [Shell.input c]).
    rewrite handleSend_not_blank by exact E.
    unfold conversation_of. cbn [Shell.messages Shell.state].
    rewrite converse_snoc. cbn [fst snd].
    rewrite exchanges_snoc by apply converse_length.
    rewrite Hm, Hs. split; reflexivity.
Qed.

Lemma run_conversation
    (respond : ChatState -> string -> string * ChatState)
    (es : list Shell.Event) (c : Shell.Component) (us : list string) :
  conversation_of respond c us ->
  exists us', conversation_of respond (Shell.run respond es c) us'.
Proof.
  unfold Shell.run. revert c us.
  induction es as [|e es IH]; intros c us H; simpl; [now exists us|].
  assert (Hs : exists us', conversation_of respond (Shell.handleSend respond c) us')
    by now apply (handleSend_conversation respond c us).
  destruct e as [v | k |]; simpl.
  - apply (IH _ us). exact H.
  - unfold Shell.handleKeyPress. destruct (String.eqb k "Enter").
    + destruct Hs as [us' Hs]. now apply (IH _ us').
    + now apply (IH _ us).
  - destruct Hs as [us' Hs]. now apply (IH _ us').
Qed.

(** The message list is the record of the conversation, and the state is
    a function of it: after any events, the list is the greeting followed
    by each user message and the handler's reply to it, and the state is
    the one the handler reaches from [awaiting_tax_request] on the user
    messages in order. *)
Theorem transcript_is_conversation
    (respond : ChatState -> string -> string * ChatState)
    (es : list Shell.Event) :
  let c := Shell.run respond es Shell.session_start in
  let us := user_texts (Shell.messages c) in
  Shell.messages c
  = {| sender := bot; text := greeting |}
    :: exchanges us (fst (converse respond awaiting_tax_request us))
  /\ Shell.state c = snd (converse respond awaiting_tax_request us)
  /\ List.length (Shell.messages c) = 1 + 2 * List.length us.
Proof.
  intros c us.
  destruct (run_conversation respond es Shell.session_start [])
    as (us' & Hm & Hs); [now split|].
  fold c in Hm, Hs.
  assert (Hus : us = us').
  { unfold us. rewrite Hm. simpl. apply user_texts_exchanges, converse_length. }
  rewrite Hus. refine (conj Hm (conj Hs _)).
  rewrite Hm. simpl. f_equal.
  pose proof (converse_length respond us' awaiting_tax_request) as Hl.
  revert Hl. generalize (fst (converse respond awaiting_tax_request us')).
  clear. induction us' as [|u us' IH]; intros [|r rs] H; simpl in *;
    try discriminate; [reflexivity|].
  rewrite (IH rs) by lia. lia.
Qed.

(** Sending twice in a row sends once: the first send empties the text
    box, and the second finds it blank. *)
Theorem handleSend_twice
    (respond : ChatState -> string -> string * ChatState)
    (c : Shell.Component) :
  Shell.handleSend respond (Shell.handleSend respond c)
  = Shell.handleSend respond c.
Proof.
  destruct (JSString.all_space (Shell.input c)) eqn:E.
  - rewrite (handleSend_blank respond c E). exact (handleSend_blank respond c E).
  - rewrite (handleSend_not_blank respond c E).
    apply handleSend_blank. reflexivity.
Qed.

Local Open Scope string_scope.

(** In the second handler an utterance with "no" in it keeps
    [awaiting_anything_else]: any number of them get the farewell each
    and leave the state there. *)
Theorem variant2_no_stays (us : list string) :
  Forall (fun u => contains_ci u "no") us ->
  converse Variant2.handleBotResponse awaiting_anything_else us
  = (repeat farewell (List.length us), awaiting_anything_else).
Proof.
  induction 1 as [|u us Hu _ IH]; [reflexivity|].
  apply includes_toLowerCase_iff in Hu.
  cbn [converse List.length repeat].
  unfold Variant2.handleBotResponse at 1. rewrite Hu, IH. reflexivity.
Qed.

Lemma variant2_no_stays_witness :
  converse Variant2.handleBotResponse awaiting_anything_else
    ["no thanks"; "No"; "I don't know"]
  = ([farewell; farewell; farewell], awaiting_anything_else).
Proof.
  apply (variant2_no_stays ["no thanks"; "No"; "I don't know"]).
  repeat constructor; apply includes_toLowerCase_iff; reflexivity.
Defined.

(** In the first handler the same utterances alternate between
    [awaiting_tax_request] and [awaiting_anything_else] when they have no
    "tax" in them. *)
Theorem variant1_no_alternates (u : string) (s : ChatState) :
  contains_ci u "no" -> ~ contains_ci u "tax" ->
  s = awaiting_tax_request \/ s = awaiting_anything_else ->
  fst (Variant1.handleBotResponse s u) = farewell
  /\ snd (Variant1.handleBotResponse s u) <> s
  /\ snd (Variant1.handleBotResponse
            (snd (Variant1.handleBotResponse s u)) u) = s.
Proof.
  intros Hn Ht Hs.
  apply includes_toLowerCase_iff in Hn.
  apply not_includes_toLowerCase_iff in Ht.
  unfold Variant1.handleBotResponse.
  destruct Hs as [-> | ->]; rewrite ?Hn, ?Ht; cbn; rewrite ?Hn, ?Ht;
    repeat split; discriminate.
Qed.

(** ** The captures of a match *)

Lemma consumed_app (a b : string) : Regex.consumed (a ++ b) b = a.
Proof.
  unfold Regex.consumed. rewrite length_app.
  replace (String.length a + String.length b - String.length b)
    with (String.length a) by lia.
  apply substring_0_app.
Qed.

Lemma matcher_captures (r : Regex.regex) :
  forall s caps k res,
    Regex.matcher r s caps k = Some res ->
    exists s1 s2 caps',
      s = s1 ++ s2 /\ captures_of r s1 caps caps' /\ k s2 caps' = Some res.
Proof.
  induction r as [|cls|r1 IH1 r2 IH2|min max cls|i r IH];
    intros s caps k res H; simpl in H.
  - exists "", s, caps. repeat split; [constructor | exact H].
  - destruct s as [|c s]; [discriminate|].
    destruct (cls c) eqn:Ec; [|discriminate].
    exists (String c ""), s, caps. repeat split; [now constructor | exact H].
  - destruct (IH1 _ _ _ _ H) as (a & s' & caps1 & -> & Ha & H').
    destruct (IH2 _ _ _ _ H') as (b & s2 & caps2 & -> & Hb & Hk).
    exists (a ++ b), s2, caps2. rewrite append_assoc.
    repeat split; [econstructor; eassumption | exact Hk].
  - assert (H0 : Regex.within max 0) by (destruct max; simpl; [lia | exact I]).
    destruct (greedy_sound _ _ _ _ _ _ _ _ H0 H) as (s1 & s2 & -> & Ha & Hmin & Hmax & Hk).
    exists s1, s2, caps. repeat split; [now constructor | exact Hk].
  - destruct (IH _ _ _ _ H) as (s1 & s2 & caps' & -> & Hd & Hk).
    rewrite consumed_app in Hk.
    exists s1, s2, (Regex.set_capture i s1 caps').
    repeat split; [now constructor | exact Hk].
Qed.

Lemma captures_of_derives (r : Regex.regex) (s : string) (c c' : Regex.captures) :
  captures_of r s c c' -> Regex.derives r s.
Proof. induction 1; econstructor; eassumption. Qed.

Lemma captures_of_groupless (r : Regex.regex) (s : string) (c c' : Regex.captures) :
  captures_of r s c c' -> has_group r = false -> c' = c.
Proof.
  induction 1; simpl; intros Hg; try reflexivity; try discriminate.
  apply orb_false_iff in Hg as [H1 H2].
  rewrite IHcaptures_of2, IHcaptures_of1; auto.
Qed.

Lemma literal_ci_groupless (l : string) : has_group (Regex.literal_ci l) = false.
Proof. induction l as [|c l IH]; [reflexivity | exact IH]. Qed.

Lemma lower_canonicalize (c : ascii) :
  CodeUnit.toLowerCase (CodeUnit.canonicalize c) = CodeUnit.toLowerCase c.
Proof. destruct c as [[] [] [] [] [] [] [] []]; reflexivity. Qed.

Lemma derives_literal_ci (l s : string) :
  Regex.derives (Regex.literal_ci l) s ->
  JSString.toLowerCase s = JSString.toLowerCase l.
Proof.
  revert s. induction l as [|a l IH]; intros s H; simpl in H.
  - now inversion H.
  - inversion H as [| |r1 r2 s1 s2 H1 H2| |]; subst.
    inversion H1 as [|cls c Hc| | |]; subst.
    apply Ascii.eqb_eq in Hc. simpl. rewrite (IH _ H2). f_equal.
    now rewrite <- (lower_canonicalize c), Hc, lower_canonicalize.
Qed.

Lemma captures_cat_inv (r1 r2 : Regex.regex) (s : string) (c c' : Regex.captures) :
  captures_of (Regex.Cat r1 r2) s c c' ->
  exists s1 s2 c1,
    s = s1 ++ s2 /\ captures_of r1 s1 c c1 /\ captures_of r2 s2 c1 c'.
Proof. inversion 1; subst. eauto 7. Qed.

Lemma captures_group_inv (i : nat) (r : Regex.regex) (s : string)
    (c c' : Regex.captures) :
  captures_of (Regex.Group i r) s c c' ->
  exists c1, captures_of r s c c1 /\ c' = Regex.set_capture i s c1.
Proof. inversion 1; subst. eauto. Qed.

Lemma captures_greedy_inv (min : nat) (max : option nat) (cls : ascii -> bool)
    (s : string) (c c' : Regex.captures) :
  captures_of (Regex.Greedy min max cls) s c c' ->
  Regex.all_in cls s = true /\ c' = c.
Proof. inversion 1; subst. now split. Qed.

(** A match of one field: the label, white space, and the value the
    group captures. *)
Lemma captures_of_field (label : string) (i : nat) (value : Regex.regex)
    (s : string) (c c' : Regex.captures) :
  has_group value = false ->
  JSString.toLowerCase label = label ->
  captures_of (Slot.field label i value) s c c' ->
  exists v,
    field_text label v s /\ Regex.derives value v
    /\ c' = Regex.set_capture i v c.
Proof.
  intros Hg Hl H. unfold Slot.field in H.
  apply captures_cat_inv in H as (l & rest & c1 & -> & Hlab & H).
  apply captures_cat_inv in H as (sp & v & c2 & -> & Hsp & H).
  apply captures_greedy_inv in Hsp as [Hsp ->].
  apply captures_group_inv in H as (c3 & Hval & ->).
  pose proof (captures_of_groupless _ _ _ _ Hval Hg) as ->.
  pose proof (captures_of_groupless _ _ _ _ Hlab (literal_ci_groupless label)) as ->.
  exists v. split; [|split; [|reflexivity]].
  - exists l, sp. repeat split; [|exact Hsp].
    rewrite (derives_literal_ci label l); [exact Hl|].
    now apply (captures_of_derives _ _ c c).
  - now apply (captures_of_derives _ _ c c).
Qed.

(** A match of the whole pattern lays the five fields out and captures
    their values. *)
Lemma captures_of_pattern (s : string) (c c' : Regex.captures) :
  captures_of Slot.pattern s c c' ->
  exists h r st co ci,
    laid_out s h r st co ci
    /\ c' = Regex.set_capture 5 ci (Regex.set_capture 4 co
              (Regex.set_capture 3 st (Regex.set_capture 2 r
                 (Regex.set_capture 1 h c)))).
Proof.
  unfold Slot.pattern. cbn [Regex.cat_all]. intros H.
  apply captures_cat_inv in H as (f1 & t1 & c1 & -> & F1 & H).
  apply captures_cat_inv in H as (g1 & t2 & d1 & -> & G1 & H).
  apply captures_cat_inv in H as (f2 & t3 & c2 & -> & F2 & H).
  apply captures_cat_inv in H as (g2 & t4 & d2 & -> & G2 & H).
  apply captures_cat_inv in H as (f3 & t5 & c3 & -> & F3 & H).
  apply captures_cat_inv in H as (g3 & t6 & d3 & -> & G3 & H).
  apply captures_cat_inv in H as (f4 & t7 & c4 & -> & F4 & H).
  apply captures_cat_inv in H as (g4 & t8 & d4 & -> & G4 & H).
  apply captures_cat_inv in H as (f5 & t9 & c5 & -> & F5 & H).
  inversion H; subst; clear H.
  apply captures_greedy_inv in G1 as [G1 ->], G2 as [G2 ->],
    G3 as [G3 ->], G4 as [G4 ->].
  apply captures_of_field in F1 as (h & F1 & D1 & ->); try reflexivity.
  apply captures_of_field in F2 as (r & F2 & D2 & ->); try reflexivity.
  apply captures_of_field in F3 as (st & F3 & D3 & ->); try reflexivity.
  apply captures_of_field in F4 as (co & F4 & D4 & ->); try reflexivity.
  apply captures_of_field in F5 as (ci & F5 & D5 & ->); try reflexivity.
  exists h, r, st, co, ci. split; [|reflexivity].
  exists f1, g1, f2, g2, f3, g3, f4, g4, f5.
  rewrite append_nil_r. repeat split; assumption.
Qed.

Lemma match_here_captures (s : string) (m : Regex.captures) :
  Regex.match_here Slot.pattern s = Some m ->
  exists whole post h r st co ci,
    s = whole ++ post
    /\ laid_out whole h r st co ci
    /\ m = [Some whole; Some h; Some r; Some st; Some co; Some ci].
Proof.
  unfold Regex.match_here. intros H.
  apply matcher_captures in H as (whole & post & caps' & -> & Hc & Hk).
  apply captures_of_pattern in Hc as (h & r & st & co & ci & Hl & ->).
  cbv beta in Hk. rewrite consumed_app in Hk. injection Hk as <-.
  exists whole, post, h, r, st, co, ci. repeat split. exact Hl.
Qed.

(** Whatever the utterance, a match has all five captures, and they are
    the values of five fields laid out in order in the matched part. *)
Lemma matches_captures (u : string) (m : Regex.captures) :
  Slot.matches u = Some m ->
  exists pre whole post h r st co ci,
    u = pre ++ whole ++ post
    /\ laid_out whole h r st co ci
    /\ m = [Some whole; Some h; Some r; Some st; Some co; Some ci].
Proof.
  unfold Slot.matches.
  assert (Here : forall s, Regex.match_here Slot.pattern s = Some m ->
            exists pre whole post h r st co ci,
              s = pre ++ whole ++ post
              /\ laid_out whole h r st co ci
              /\ m = [Some whole; Some h; Some r; Some st; Some co; Some ci]).
  { intros s E.
    apply match_here_captures in E as (whole & post & h & r & st & co & ci & E & Hl & ->).
    now exists "", whole, post, h, r, st, co, ci. }
  induction u as [|c u IH]; cbn [Regex.exec].
  - destruct (Regex.match_here Slot.pattern "") as [m'|] eqn:E; [|discriminate].
    intros H. injection H as ->. now apply Here.
  - destruct (Regex.match_here Slot.pattern (String c u)) as [m'|] eqn:E.
    + intros H. injection H as ->. now apply Here.
    + intros H.
      destruct (IH H) as (pre & whole & post & h & r & st & co & ci & -> & Hl & ->).
      now exists (String c pre), whole, post, h, r, st, co, ci.
Qed.

(** ** The labels a match needs *)

Lemma contains_ci_app_l (a b w : string) :
  contains_ci a w -> contains_ci (a ++ b) w.
Proof.
  intros (pre & mid & post & -> & H).
  exists pre, mid, (post ++ b). now rewrite !append_assoc.
Qed.

Lemma contains_ci_app_r (a b w : string) :
  contains_ci b w -> contains_ci (a ++ b) w.
Proof.
  intros (pre & mid & post & -> & H).
  exists (a ++ pre), mid, post. now rewrite !append_assoc.
Qed.

Lemma in_order_contains (ls : list string) :
  forall u l, in_order u ls -> In l ls -> contains_ci u l.
Proof.
  induction ls as [|l0 ls IH]; intros u l H Hin; [contradiction|].
  destruct H as (pre & mid & post & -> & Hm & Hpost).
  destruct Hin as [<- | Hin].
  - now exists pre, mid, post.
  - apply contains_ci_app_r, contains_ci_app_r. now apply IH.
Qed.

Lemma laid_out_in_order (pre whole post h r st co ci : string) :
  laid_out whole h r st co ci ->
  in_order (pre ++ whole ++ post) labels.
Proof.
  intros (f1 & g1 & f2 & g2 & f3 & g3 & f4 & g4 & f5 & -> &
          (l1 & s1 & -> & L1 & _) & (l2 & s2 & -> & L2 & _) &
          (l3 & s3 & -> & L3 & _) & (l4 & s4 & -> & L4 & _) &
          (l5 & s5 & -> & L5 & _) & _).
  exists pre, l1, (s1 ++ h ++ g1 ++ (l2 ++ s2 ++ r) ++ g2 ++ (l3 ++ s3 ++ st)
                     ++ g3 ++ (l4 ++ s4 ++ co) ++ g4 ++ (l5 ++ s5 ++ ci) ++ post).
  split; [now rewrite !append_assoc | split; [exact L1|]].
  exists (s1 ++ h ++ g1), l2, (s2 ++ r ++ g2 ++ (l3 ++ s3 ++ st)
                     ++ g3 ++ (l4 ++ s4 ++ co) ++ g4 ++ (l5 ++ s5 ++ ci) ++ post).
  split; [now rewrite !append_assoc | split; [exact L2|]].
  exists (s2 ++ r ++ g2), l3, (s3 ++ st ++ g3 ++ (l4 ++ s4 ++ co) ++ g4
                     ++ (l5 ++ s5 ++ ci) ++ post).
  split; [now rewrite !append_assoc | split; [exact L3|]].
  exists (s3 ++ st ++ g3), l4, (s4 ++ co ++ g4 ++ (l5 ++ s5 ++ ci) ++ post).
  split; [now rewrite !append_assoc | split; [exact L4|]].
  exists (s4 ++ co ++ g4), l5, (s5 ++ ci ++ post).
  split; [now rewrite !append_assoc | split; [exact L5 | exact I]].
Qed.

Lemma present_in_order (u : string) : Slot.present u -> in_order u labels.
Proof.
  intros H. apply matches_spec in H as [m H].
  apply matches_captures in H
    as (pre & whole & post & h & r & st & co & ci & -> & Hl & _).
  now apply (laid_out_in_order pre whole post h r st co ci).
Qed.

(** An utterance in which the five labels do not occur in the order of
    the pattern, one that lacks a label in particular, gets the retry
    prompt and leaves [awaiting_tax_details] as it is. *)
Theorem labels_required (u : string) :
  (~ in_order u labels ->
     Variant1.handleBotResponse awaiting_tax_details u
     = (retry_prompt, awaiting_tax_details))
  /\ (forall l, In l labels -> ~ contains_ci u l ->
     Variant1.handleBotResponse awaiting_tax_details u
     = (retry_prompt, awaiting_tax_details)).
Proof.
  split.
  - intros H. apply unmatched_details. intros Hp.
    now apply H, present_in_order.
  - intros l Hl H. apply unmatched_details. intros Hp.
    apply H, (in_order_contains labels); [now apply present_in_order | exact Hl].
Qed.

Lemma labels_required_witness :
  Variant1.handleBotResponse awaiting_tax_details
    "hours: 40, rate: 35, state: NY, county: Kings"
  = (retry_prompt, awaiting_tax_details).
Proof.
  apply (proj2 (labels_required "hours: 40, rate: 35, state: NY, county: Kings")
           "city:").
  - simpl. tauto.
  - apply not_includes_toLowerCase_iff. reflexivity.
Defined.

(** ** The numbers of a match *)

Lemma shr_1_nonneg (mrs : shr_record) :
  (0 <= shr_m mrs)%Z -> (0 <= shr_m (shr_1 mrs))%Z.
Proof.
  destruct mrs as [m r s]. simpl.
  destruct m as [|[p|p|]|[p|p|]]; simpl; intros H; lia.
Qed.

Lemma iter_pos_shr_1_nonneg (p : positive) :
  forall mrs, (0 <= shr_m mrs)%Z -> (0 <= shr_m (iter_pos shr_1 p mrs))%Z.
Proof.
  induction p as [p IH|p IH|]; intros mrs H; simpl.
  - now apply IH, IH, shr_1_nonneg.
  - now apply IH, IH.
  - now apply shr_1_nonneg.
Qed.

Lemma shr_fexp_nonneg (m e : Z) (l : location) :
  (0 <= m)%Z ->
  (0 <= shr_m (fst (shr_fexp Number.prec Number.emax m e l)))%Z.
Proof.
  intros H. unfold shr_fexp, shr.
  assert (H0 : (0 <= shr_m (shr_record_of_loc m l))%Z)
    by (destruct l as [|[]]; exact H).
  destruct (fexp Number.prec Number.emax (Zdigits2 m + e) - e)%Z; simpl;
    try exact H0.
  now apply iter_pos_shr_1_nonneg.
Qed.

Lemma round_nearest_even_nonneg (m : Z) (l : location) :
  (0 <= m)%Z -> (0 <= round_nearest_even m l)%Z.
Proof.
  intros H. destruct l as [|[]]; simpl; try lia.
  destruct (Z.even m); lia.
Qed.

Lemma binary_round_aux_nonneg (m e : Z) (l : location) :
  (0 <= m)%Z ->
  is_nonneg (binary_round_aux Number.prec Number.emax false m e l) = true.
Proof.
  intros H. unfold binary_round_aux.
  pose proof (shr_fexp_nonneg m e l H) as H1.
  destruct (shr_fexp Number.prec Number.emax m e l) as [mrs' e'].
  simpl in H1.
  pose proof (shr_fexp_nonneg _ e' loc_Exact
                (round_nearest_even_nonneg (shr_m mrs') (loc_of_shr_record mrs') H1)) as H2.
  destruct (shr_fexp Number.prec Number.emax
              (round_nearest_even (shr_m mrs') (loc_of_shr_record mrs')) e' loc_Exact)
    as [mrs'' e''].
  simpl in H2.
  destruct (shr_m mrs'') as [|p|p]; [reflexivity | | lia].
  now destruct (e'' <=? Number.emax - Number.prec)%Z.
Qed.

Lemma of_Z_nonneg (v : Z) : (0 <= v)%Z -> is_nonneg (Number.of_Z v) = true.
Proof.
  intros H. unfold Number.of_Z, binary_normalize.
  destruct v as [|p|p]; [reflexivity | | lia].
  unfold binary_round.
  destruct (shl_align p 0 _) as [mz ez].
  now apply binary_round_aux_nonneg.
Qed.

Lemma of_decimal_nonneg (m e : Z) : is_nonneg (Number.of_decimal m e) = true.
Proof.
  unfold Number.of_decimal.
  destruct m as [|p|p]; try reflexivity.
  destruct (0 <=? e)%Z.
  - apply of_Z_nonneg. apply Z.mul_nonneg_nonneg; [lia|]. apply Z.pow_nonneg. lia.
  - unfold SFdiv, SFdiv_core_binary.
    set (m' := match _ with Zpos _ => _ | Z0 => _ | Zneg _ => _ end).
    assert (Hm' : (0 <= m')%Z).
    { subst m'. destruct (_ - _ - _)%Z; try lia. apply Z.shiftl_nonneg. lia. }
    pose proof (Z.div_pos m' (Z.pos (Z.to_pos (10 ^ (- e)))) Hm' ltac:(lia)) as Hq.
    unfold Z.div in Hq.
    destruct (Z.div_eucl m' (Z.pos (Z.to_pos (10 ^ (- e))))) as [q r].
    now apply binary_round_aux_nonneg.
Qed.

(** [parseFloat] of a text that starts with a digit is the value of a
    decimal literal. *)
Lemma parseFloat_digit_first (c : ascii) (s : string) :
  CodeUnit.is_digit c = true ->
  exists m e, Number.parseFloat (String c s) = Number.of_decimal m e.
Proof.
  intros Hc.
  assert (Hp : Number.parseFloat (String c s) = Number.parse_unsigned (String c s)).
  { destruct c as [[] [] [] [] [] [] [] []]; try discriminate Hc; reflexivity. }
  assert (Hi : JSString.startsWith "Infinity" (String c s) = false).
  { destruct c as [[] [] [] [] [] [] [] []]; try discriminate Hc; reflexivity. }
  rewrite Hp. unfold Number.parse_unsigned. rewrite Hi.
  cbn [Number.take_digits]. rewrite Hc.
  destruct (Number.take_digits s) as [d r1].
  destruct r1 as [|c1 r2]; cbn [Number.is_empty]; [eauto|].
  destruct (Ascii.eqb_spec c1 ".") as [-> | Hne].
  - destruct (Number.take_digits r2) as [fp r3]. cbn [andb]. eauto.
  - destruct c1 as [[] [] [] [] [] [] [] []]; try (now contradiction Hne); eauto.
Qed.

Lemma derives_amount_digit_first (t : string) :
  Regex.derives Slot.amount t ->
  exists c s, t = String c s /\ CodeUnit.is_digit c = true.
Proof.
  unfold Slot.amount. intros H.
  inversion H as [| |r1 r2 a rest Ha Hrest| |]; subst.
  inversion Ha as [| | |min max cls a' Hall Hmin _|]; subst.
  destruct a as [|c a]; [simpl in Hmin; lia|].
  unfold Regex.all_in in Hall. simpl in Hall.
  apply andb_true_iff in Hall as [Hc _].
  now exists c, (a ++ rest).
Qed.

Lemma derives_amount_nonneg (t : string) :
  Regex.derives Slot.amount t -> is_nonneg (Number.parseFloat t) = true.
Proof.
  intros H. apply derives_amount_digit_first in H as (c & s & -> & Hc).
  destruct (parseFloat_digit_first c s Hc) as (m & e & ->).
  apply of_decimal_nonneg.
Qed.

Lemma mul_not_negative (x y : Number.number) :
  is_nonneg x = true -> is_nonneg y = true ->
  not_negative (Number.mul x y) = true.
Proof.
  destruct x as [[]|[]| |[] mx ex]; try discriminate;
    destruct y as [[]|[]| |[] my ey]; try discriminate; intros _ _;
    try reflexivity.
  unfold Number.mul, SFmul. cbn [xorb].
  pose proof (binary_round_aux_nonneg (Z.pos (mx * my)) (ex + ey) loc_Exact ltac:(lia)) as H.
  now destruct (binary_round_aux _ _ _ _ _ _).
Qed.

Lemma mul_totalRate_not_negative (x : Number.number) :
  not_negative x = true -> not_negative (Number.mul x Estimate.totalRate) = true.
Proof.
  assert (Ht : Estimate.totalRate = S754_finite false 6124895493223874 (-55))
    by (vm_compute; reflexivity).
  rewrite Ht.
  destruct x as [[]|[]| |[] mx ex]; try discriminate; intros _; try reflexivity.
  unfold Number.mul, SFmul. cbn [xorb].
  pose proof (binary_round_aux_nonneg (Z.pos (mx * 6124895493223874)) (ex + -55)
                loc_Exact ltac:(lia)) as H.
  now destruct (binary_round_aux _ _ _ _ _ _).
Qed.

(** On every match the hours and the rate are numbers that are not
    [NaN] and not negative, and neither the gross pay nor the taxes are
    negative. *)
Theorem matched_amounts_not_negative (u : string) (m : Regex.captures) :
  Slot.matches u = Some m ->
  is_nonneg (Estimate.hours m) = true
  /\ is_nonneg (Estimate.rate m) = true
  /\ not_negative (Estimate.grossPay m) = true
  /\ not_negative (Estimate.taxes m) = true.
Proof.
  intros H. apply matches_captures in H
    as (pre & whole & post & h & r & st & co & ci & _ & Hl & ->).
  destruct Hl as (f1 & g1 & f2 & g2 & f3 & g3 & f4 & g4 & f5 & _ & _ & _ & _ & _ & _
                  & _ & _ & _ & _ & Dh & Dr & _).
  assert (Hh : is_nonneg (Estimate.hours [Some whole; Some h; Some r; Some st; Some co; Some ci]) = true)
    by now apply derives_amount_nonneg.
  assert (Hr : is_nonneg (Estimate.rate [Some whole; Some h; Some r; Some st; Some co; Some ci]) = true)
    by now apply derives_amount_nonneg.
  refine (conj Hh (conj Hr _)).
  assert (Hg : not_negative (Estimate.grossPay [Some whole; Some h; Some r; Some st; Some co; Some ci]) = true)
    by now apply mul_not_negative.
  split; [exact Hg|]. now apply mul_totalRate_not_negative.
Qed.

Lemma matched_amounts_not_negative_witness :
  is_nonneg (Number.parseFloat "40") = true
  /\ is_nonneg (Number.parseFloat "35") = true
  /\ not_negative (Number.mul (Number.parseFloat "40") (Number.parseFloat "35")) = true
  /\ not_negative
       (Number.mul (Number.mul (Number.parseFloat "40") (Number.parseFloat "35"))
          Estimate.totalRate) = true.
Proof.
  apply (matched_amounts_not_negative example_slots
           [Some example_slots; Some "40"; Some "35"; Some "NY"; Some "Kings"; Some "NYC"]).
  vm_compute. reflexivity.
Defined.

(** ** The values of a match *)

Lemma derives_word_name (t : string) :
  Regex.derives Slot.word t -> is_name t = true.
Proof.
  unfold Slot.word, Regex.plus. intros H.
  inversion H as [| | |min max cls t' Hall Hmin _|]; subst.
  unfold is_name. rewrite Hall.
  destruct t; [simpl in Hmin; lia | reflexivity].
Qed.

(** ** The shape of the captured values *)

Lemma take_digits_app (a rest : string) :
  all_digits a = true ->
  stops CodeUnit.is_digit rest = true ->
  Number.take_digits (a ++ rest) = (a, rest).
Proof.
  unfold all_digits. induction a as [|c a IH]; intros Ha Hr.
  - destruct rest as [|c rest]; [reflexivity|].
    simpl in Hr. apply negb_true_iff in Hr. simpl. now rewrite Hr.
  - simpl in Ha. apply andb_true_iff in Ha as [Hc Ha].
    cbn [append Number.take_digits]. rewrite Hc, (IH Ha Hr). reflexivity.
Qed.

Lemma all_in_digit_all_digits (s : string) :
  Regex.all_in CodeUnit.is_digit s = all_digits s.
Proof. reflexivity. Qed.

Lemma derives_amount_is_amount (t : string) :
  Regex.derives Slot.amount t -> is_amount t = true.
Proof.
  unfold Slot.amount. intros H.
  inversion H as [| |r1 r2 a rest Ha Hrest| |]; subst.
  inversion Hrest as [| |r1 r2 p d Hp Hd| |]; subst.
  inversion Ha as [| | |min max cls a' Hall Hmin _|]; subst.
  inversion Hp as [| | |min max cls p' Hpall _ Hpmax|]; subst.
  inversion Hd as [| | |min max cls d' Hdall _ _|]; subst.
  rewrite all_in_digit_all_digits in Hall, Hdall.
  assert (Hne : Number.is_empty a = false)
    by (destruct a; [simpl in Hmin; lia | reflexivity]).
  unfold is_amount.
  destruct p as [|c [|c' p]].
  - cbn [append].
    rewrite <- (append_nil_r (a ++ d)), take_digits_app;
      [| now rewrite all_digits_app, Hall, Hdall | reflexivity].
    destruct (a ++ d) eqn:E; [|reflexivity].
    destruct a; discriminate.
  - unfold Regex.all_in in Hpall. simpl in Hpall.
    rewrite andb_true_r in Hpall. pose proof Hpall as Hc.
    apply Ascii.eqb_eq in Hc. subst c.
    cbn [append]. rewrite take_digits_app; [| exact Hall | reflexivity].
    rewrite Hne. cbn [negb andb]. now rewrite Hdall.
  - simpl in Hpmax. lia.
Qed.

(** ** The end of a match *)

Lemma greedy_total (cls : ascii -> bool) (min : nat) (k : Regex.continuation)
    (caps : Regex.captures) (s : string) :
  (forall s' c', k s' c' <> None) ->
  forall n, min <= n -> Regex.greedy min None cls k caps n s <> None.
Proof.
  intros Hk. induction s as [|c s IH]; intros n Hn; cbn [Regex.greedy];
    apply Nat.leb_le in Hn as Hb; rewrite Hb.
  - apply Hk.
  - destruct (cls c && Regex.below None n); [|apply Hk].
    destruct (Regex.greedy min None cls k caps (S n) s); [discriminate | apply Hk].
Qed.

(** Before a continuation that refuses nothing, a greedy run stops only
    where the class stops. *)
Lemma greedy_stops (cls : ascii -> bool) (min : nat) (k : Regex.continuation)
    (caps res : Regex.captures) (s : string) :
  (forall s' c', k s' c' <> None) ->
  forall n,
    Regex.greedy min None cls k caps n s = Some res ->
    exists s1 s2,
      s = s1 ++ s2
      /\ Regex.all_in cls s1 = true
      /\ min <= n + String.length s1
      /\ k s2 caps = Some res
      /\ stops cls s2 = true.
Proof.
  intros Hk. induction s as [|c s IH]; intros n H; cbn [Regex.greedy] in H.
  - destruct (Nat.leb_spec min n); [|discriminate].
    exists "", "". simpl. rewrite Nat.add_0_r. now repeat split.
  - destruct (cls c) eqn:Ec; cbn [andb Regex.below] in H.
    + destruct (Regex.greedy min None cls k caps (S n) s) as [res'|] eqn:Er.
      * injection H as ->.
        destruct (IH (S n) Er) as (s1 & s2 & -> & Ha & Hmin & Hres & Hs).
        exists (String c s1), s2. simpl.
        replace (n + S (String.length s1)) with (S n + String.length s1) by lia.
        repeat split; try assumption.
        unfold Regex.all_in in *. simpl. now rewrite Ec.
      * destruct (Nat.leb_spec min n); [|discriminate].
        exfalso. apply (greedy_total cls min k caps s Hk (S n)); [lia | exact Er].
    + destruct (Nat.leb_spec min n); [|discriminate].
      exists "", (String c s). simpl. rewrite Nat.add_0_r, Ec.
      now repeat split.
Qed.

(** A pattern that ends with a greedy run, before a continuation that
    refuses nothing, matches up to where the class stops. *)
Lemma matcher_captures_stops (cls : ascii -> bool) (r : Regex.regex) :
  ends_with cls r ->
  forall s caps k res,
    (forall s' c', k s' c' <> None) ->
    Regex.matcher r s caps k = Some res ->
    exists s1 s2 caps',
      s = s1 ++ s2 /\ captures_of r s1 caps caps' /\ k s2 caps' = Some res
      /\ stops cls s2 = true.
Proof.
  induction 1 as [min|i r _ IH|r1 r2 _ IH|r1 _ IH];
    intros s caps k res Hk H.
  - cbn [Regex.matcher] in H.
    destruct (greedy_stops cls min k caps res s Hk 0 H)
      as (s1 & s2 & -> & Ha & Hmin & Hres & Hs).
    exists s1, s2, caps. repeat split; try assumption.
    now constructor.
  - cbn [Regex.matcher] in H.
    apply IH in H as (s1 & s2 & caps' & -> & Hc & Hres & Hs);
      [|intros s' c'; apply Hk].
    rewrite consumed_app in Hres.
    exists s1, s2, (Regex.set_capture i s1 caps').
    repeat split; try assumption. now constructor.
  - cbn [Regex.matcher] in H.
    apply matcher_captures in H as (a & s' & c1 & -> & Ha & H).
    apply IH in H as (b & s2 & c2 & -> & Hb & Hres & Hs); [|exact Hk].
    exists (a ++ b), s2, c2. rewrite append_assoc.
    repeat split; try assumption. econstructor; eassumption.
  - cbn [Regex.matcher] in H.
    apply IH in H as (s1 & s2 & caps' & -> & Hc & Hres & Hs);
      [|intros s' c'; apply Hk].
    exists s1, s2, caps'. repeat split; try assumption.
    rewrite <- (append_nil_r s1). econstructor; [exact Hc | constructor].
Qed.

Lemma pattern_ends_with_word : ends_with CodeUnit.is_word Slot.pattern.
Proof.
  unfold Slot.pattern, Slot.field, Slot.word, Regex.plus.
  cbn [Regex.cat_all].
  do 8 apply ends_cat. apply ends_cat_empty.
  do 2 apply ends_cat. apply ends_group, ends_greedy.
Qed.

(** A match of the pattern ends where the word characters of the city
    end. *)
Lemma matches_captures_stops (u : string) (m : Regex.captures) :
  Slot.matches u = Some m ->
  exists pre whole post h r st co ci,
    u = pre ++ whole ++ post
    /\ laid_out whole h r st co ci
    /\ m = [Some whole; Some h; Some r; Some st; Some co; Some ci]
    /\ stops CodeUnit.is_word post = true.
Proof.
  unfold Slot.matches.
  assert (Here : forall s, Regex.match_here Slot.pattern s = Some m ->
            exists pre whole post h r st co ci,
              s = pre ++ whole ++ post
              /\ laid_out whole h r st co ci
              /\ m = [Some whole; Some h; Some r; Some st; Some co; Some ci]
              /\ stops CodeUnit.is_word post = true).
  { intros s E. unfold Regex.match_here in E.
    apply (matcher_captures_stops _ _ pattern_ends_with_word) in E
      as (whole & post & caps' & -> & Hc & Hk & Hs); [|discriminate].
    apply captures_of_pattern in Hc as (h & r & st & co & ci & Hl & ->).
    cbv beta in Hk. rewrite consumed_app in Hk. injection Hk as <-.
    exists "", whole, post, h, r, st, co, ci. repeat split; assumption. }
  induction u as [|c u IH]; cbn [Regex.exec].
  - destruct (Regex.match_here Slot.pattern "") as [m'|] eqn:E; [|discriminate].
    intros H. injection H as ->. now apply Here.
  - destruct (Regex.match_here Slot.pattern (String c u)) as [m'|] eqn:E.
    + intros H. injection H as ->. now apply Here.
    + intros H.
      destruct (IH H) as (pre & whole & post & h & r & st & co & ci & -> & Hl & -> & Hs).
      now exists (String c pre), whole, post, h, r, st, co, ci.
Qed.

(** On every match the five captures are defined, each stands in the
    matched part right after its label and the white space that follows
    it, the labels in the order of the pattern; the hours and the rate
    are digits, possibly followed by a period and further digits; the
    state, the county and the city are non-empty runs of word
    characters; and the match ends with the city, which runs to the end
    of its word: what follows it in the utterance is nothing or not a
    word character.  (Backtracking may leave the state or the county
    shorter than the word typed.) *)
Theorem matched_fields (u : string) (m : Regex.captures) :
  Slot.matches u = Some m ->
  exists pre whole post,
    u = pre ++ whole ++ post
    /\ m = [ Some whole; Some (Regex.capture m 1); Some (Regex.capture m 2);
             Some (Estimate.stateName m); Some (Estimate.countyName m);
             Some (Estimate.cityName m) ]
    /\ laid_out whole (Regex.capture m 1) (Regex.capture m 2)
         (Estimate.stateName m) (Estimate.countyName m) (Estimate.cityName m)
    /\ is_amount (Regex.capture m 1) = true
    /\ is_amount (Regex.capture m 2) = true
    /\ is_name (Estimate.stateName m) = true
    /\ is_name (Estimate.countyName m) = true
    /\ is_name (Estimate.cityName m) = true
    /\ stops CodeUnit.is_word post = true.
Proof.
  intros H. apply matches_captures_stops in H
    as (pre & whole & post & h & r & st & co & ci & -> & Hl & -> & Hs).
  exists pre, whole, post.
  cbn [Regex.capture nth Estimate.stateName Estimate.countyName Estimate.cityName].
  refine (conj eq_refl (conj eq_refl (conj Hl _))).
  destruct Hl as (f1 & g1 & f2 & g2 & f3 & g3 & f4 & g4 & f5 & _ & _ & _ & _ & _ & _
                  & _ & _ & _ & _ & Dh & Dr & Ds & Dc & Dy).
  repeat split;
    first [ now apply derives_amount_is_amount | now apply derives_word_name
          | exact Hs ].
Qed.

Lemma matched_fields_witness :
  exists pre whole post,
    example_slots = pre ++ whole ++ post
    /\ [Some example_slots; Some "40"; Some "35"; Some "NY"; Some "Kings"; Some "NYC"]
       = [ Some whole; Some "40"; Some "35"; Some "NY"; Some "Kings"; Some "NYC" ]
    /\ laid_out whole "40" "35" "NY" "Kings" "NYC"
    /\ is_amount "40" = true /\ is_amount "35" = true
    /\ is_name "NY" = true /\ is_name "Kings" = true /\ is_name "NYC" = true
    /\ stops CodeUnit.is_word post = true.
Proof.
  apply (matched_fields example_slots
           [Some example_slots; Some "40"; Some "35"; Some "NY"; Some "Kings"; Some "NYC"]).
  vm_compute. reflexivity.
Defined.

(** ** Text around the fields *)

Lemma present_surrounded (u pre post : string) :
  Slot.present u -> Slot.present (pre ++ u ++ post).
Proof.
  intros (p & mid & q & -> & H).
  exists (pre ++ p), mid, (q ++ post). split; [|exact H].
  now rewrite !append_assoc.
Qed.

(** The pattern is not anchored: text before and after an utterance that
    has the fields does not keep the handler from answering with an
    estimate and moving on. *)
Theorem surrounding_text_accepted (u pre post : string) :
  Slot.present u ->
  exists m,
    Slot.matches (pre ++ u ++ post) = Some m
    /\ Variant1.handleBotResponse awaiting_tax_details (pre ++ u ++ post)
       = (Variant1.estimate_text m, awaiting_anything_else).
Proof.
  intros H. apply (present_surrounded u pre post), matches_spec in H as [m H].
  exists m. split; [exact H | now apply matched_details].
Qed.

Lemma surrounding_text_accepted_witness :
  exists m,
    Slot.matches ("Sure, " ++ example_slots ++ ". Thanks!") = Some m
    /\ Variant1.handleBotResponse awaiting_tax_details
         ("Sure, " ++ example_slots ++ ". Thanks!")
       = (Variant1.estimate_text m, awaiting_anything_else).
Proof.
  apply (surrounding_text_accepted example_slots "Sure, " ". Thanks!").
  apply matches_spec. eexists. vm_compute. reflexivity.
Defined.

(** ** Letter case *)

Lemma toLowerCase_length (s : string) :
  String.length (JSString.toLowerCase s) = String.length s.
Proof. induction s as [|c s IH]; simpl; [reflexivity | now rewrite IH]. Qed.

Lemma all_in_toLowerCase (cls : ascii -> bool) (s : string) :
  (forall c, cls (CodeUnit.toLowerCase c) = cls c) ->
  Regex.all_in cls (JSString.toLowerCase s) = Regex.all_in cls s.
Proof.
  intros H. unfold Regex.all_in.
  induction s as [|c s IH]; simpl; [reflexivity | now rewrite H, IH].
Qed.

Lemma derives_toLowerCase (r : Regex.regex) (s : string) :
  case_blind r -> Regex.derives r s -> Regex.derives r (JSString.toLowerCase s).
Proof.
  intros Hr H. induction H as [|cls c Hc|r1 r2 s1 s2 _ IH1 _ IH2
                               |min max cls s Hall Hmin Hmax|i r s _ IH];
    simpl in Hr.
  - constructor.
  - simpl. constructor. now rewrite Hr.
  - rewrite toLowerCase_app. destruct Hr. constructor; auto.
  - constructor.
    + now rewrite all_in_toLowerCase.
    + now rewrite toLowerCase_length.
    + now rewrite toLowerCase_length.
  - constructor. auto.
Qed.

Lemma derives_of_toLowerCase (r : Regex.regex) :
  case_blind r ->
  forall t, Regex.derives r t ->
  forall s, JSString.toLowerCase s = t -> Regex.derives r s.
Proof.
  intros Hr t H. induction H as [|cls c Hc|r1 r2 s1 s2 _ IH1 _ IH2
                                 |min max cls t Hall Hmin Hmax|i r t _ IH];
    simpl in Hr; intros s Hs.
  - destruct s; [constructor | discriminate].
  - destruct s as [|d [|e s]]; try discriminate.
    simpl in Hs. injection Hs as <-. constructor. now rewrite <- Hr.
  - destruct Hr as [Hr1 Hr2].
    apply toLowerCase_split in Hs as (u1 & u2 & -> & H1 & H2).
    constructor; auto.
  - subst t. constructor.
    + now rewrite <- (all_in_toLowerCase cls s Hr).
    + now rewrite <- toLowerCase_length.
    + now rewrite <- toLowerCase_length.
  - constructor. auto.
Qed.

Lemma canonicalize_toLowerCase (c : ascii) :
  CodeUnit.canonicalize (CodeUnit.toLowerCase c) = CodeUnit.canonicalize c.
Proof. destruct c as [[] [] [] [] [] [] [] []]; reflexivity. Qed.

Lemma lit_ci_case_blind (a : ascii) : case_blind (Regex.lit_ci a).
Proof. intros c. now rewrite canonicalize_toLowerCase. Qed.

Lemma literal_ci_case_blind (l : string) : case_blind (Regex.literal_ci l).
Proof.
  induction l as [|a l IH]; simpl; [exact I|]. split; [|exact IH].
  apply lit_ci_case_blind.
Qed.

Lemma is_space_toLowerCase (c : ascii) :
  CodeUnit.is_space (CodeUnit.toLowerCase c) = CodeUnit.is_space c.
Proof. destruct c as [[] [] [] [] [] [] [] []]; reflexivity. Qed.

Lemma is_digit_toLowerCase (c : ascii) :
  CodeUnit.is_digit (CodeUnit.toLowerCase c) = CodeUnit.is_digit c.
Proof. destruct c as [[] [] [] [] [] [] [] []]; reflexivity. Qed.

Lemma is_word_toLowerCase (c : ascii) :
  CodeUnit.is_word (CodeUnit.toLowerCase c) = CodeUnit.is_word c.
Proof. destruct c as [[] [] [] [] [] [] [] []]; reflexivity. Qed.

Lemma is_period_toLowerCase (c : ascii) :
  Slot.is_period (CodeUnit.toLowerCase c) = Slot.is_period c.
Proof. destruct c as [[] [] [] [] [] [] [] []]; reflexivity. Qed.

Lemma dot_toLowerCase (c : ascii) :
  Regex.dot (CodeUnit.toLowerCase c) = Regex.dot c.
Proof. destruct c as [[] [] [] [] [] [] [] []]; reflexivity. Qed.

Lemma pattern_case_blind : case_blind Slot.pattern.
Proof.
  unfold Slot.pattern, Slot.field, Slot.amount, Slot.word.
  cbn [Regex.cat_all case_blind Regex.star Regex.plus Regex.opt].
  repeat split;
    first [ apply lit_ci_case_blind | apply is_space_toLowerCase
          | apply is_digit_toLowerCase | apply is_word_toLowerCase
          | apply is_period_toLowerCase | apply dot_toLowerCase ].
Qed.

Lemma present_toLowerCase (u : string) :
  Slot.present (JSString.toLowerCase u) <-> Slot.present u.
Proof.
  split.
  - intros (pre & mid & post & H & D).
    apply toLowerCase_split in H as (u1 & u23 & -> & _ & H).
    apply toLowerCase_split in H as (u2 & u3 & -> & H2 & _).
    exists u1, u2, u3. split; [reflexivity|].
    now apply (derives_of_toLowerCase _ pattern_case_blind mid).
  - intros (pre & mid & post & -> & D).
    exists (JSString.toLowerCase pre), (JSString.toLowerCase mid),
      (JSString.toLowerCase post).
    rewrite !toLowerCase_app. split; [reflexivity|].
    now apply derives_toLowerCase; [apply pattern_case_blind|].
Qed.

Lemma toLowerCase_idempotent (s : string) :
  JSString.toLowerCase (JSString.toLowerCase s) = JSString.toLowerCase s.
Proof.
  induction s as [|c s IH]; simpl; [reflexivity|]. rewrite IH. f_equal.
  destruct c as [[] [] [] [] [] [] [] []]; reflexivity.
Qed.

(** Letter case does not steer the conversation, on utterances of code
    units U+0000 to U+00FF, which the strings here are: two of them that
    differ in letter case only lead to the same next state from every
    state, and get the same reply in every state but
    [awaiting_tax_details], where the estimate shows the names as typed.
    (Above U+00FF this fails: the Kelvin sign has the lower case "k" and
    is no word character.) *)
Theorem letter_case_ignored (s : ChatState) (u v : string) :
  JSString.toLowerCase u = JSString.toLowerCase v ->
  snd (Variant1.handleBotResponse s u) = snd (Variant1.handleBotResponse s v)
  /\ (s <> awaiting_tax_details \/ ~ Slot.present u ->
      Variant1.handleBotResponse s u = Variant1.handleBotResponse s v).
Proof.
  intros H.
  assert (Hp : Slot.present u <-> Slot.present v).
  { now rewrite <- (present_toLowerCase u), <- (present_toLowerCase v), H. }
  unfold Variant1.handleBotResponse. rewrite H.
  destruct s; try (split; [reflexivity | intros _; reflexivity]).
  destruct (Slot.matches u) as [mu|] eqn:Eu; destruct (Slot.matches v) as [mv|] eqn:Ev.
  - split; [reflexivity|]. intros [Hs | Hn]; [now contradiction Hs|].
    contradiction Hn. apply matches_spec. now exists mu.
  - apply not_matches_spec in Ev. contradiction Ev. apply Hp, matches_spec. now exists mu.
  - apply not_matches_spec in Eu. contradiction Eu. apply Hp, matches_spec. now exists mv.
  - split; [reflexivity | intros _; reflexivity].
Qed.

Lemma letter_case_ignored_witness :
  snd (Variant1.handleBotResponse awaiting_tax_details
         "HOURS: 40, RATE: 35, STATE: NY, COUNTY: KINGS, CITY: NYC")
  = snd (Variant1.handleBotResponse awaiting_tax_details
           "hours: 40, rate: 35, state: ny, county: kings, city: nyc").
Proof.
  apply (letter_case_ignored awaiting_tax_details
           "HOURS: 40, RATE: 35, STATE: NY, COUNTY: KINGS, CITY: NYC"
           "hours: 40, rate: 35, state: ny, county: kings, city: nyc").
  reflexivity.
Defined.

(** ** The matcher on the layout of the prompts *)

Lemma greedy_run (cls : ascii -> bool) (min : nat) (k : Regex.continuation)
    (caps res : Regex.captures) :
  forall a n b,
    Regex.all_in cls a = true ->
    stops cls b = true ->
    min <= n + String.length a ->
    k b caps = Some res ->
    Regex.greedy min None cls k caps n (a ++ b) = Some res.
Proof.
  induction a as [|x a IH]; intros n b Ha Hb Hmin Hk.
  - simpl in *. rewrite Nat.add_0_r in Hmin. apply Nat.leb_le in Hmin.
    destruct b as [|c b]; cbn [Regex.greedy]; rewrite Hmin; [exact Hk|].
    simpl in Hb. apply negb_true_iff in Hb. now rewrite Hb.
  - unfold Regex.all_in in Ha. simpl in Ha. apply andb_true_iff in Ha as [Hx Ha].
    cbn [append Regex.greedy]. rewrite Hx. cbn [andb Regex.below].
    rewrite (IH (S n) b Ha Hb); [reflexivity | simpl in Hmin; lia | exact Hk].
Qed.

Lemma greedy_at_max (min m : nat) (cls : ascii -> bool) (k : Regex.continuation)
    (caps : Regex.captures) (n : nat) (s : string) :
  m <= n ->
  Regex.greedy min (Some m) cls k caps n s
  = if (min <=? n)%nat then k s caps else None.
Proof.
  intros H. assert (Hb : Regex.below (Some m) n = false)
    by (simpl; apply Nat.ltb_ge; exact H).
  destruct s as [|c s]; cbn [Regex.greedy]; [reflexivity|].
  now rewrite Hb, andb_false_r.
Qed.

Lemma greedy_all_fail (min : nat) (max : option nat) (cls : ascii -> bool)
    (k : Regex.continuation) (caps : Regex.captures) (s : string) :
  (forall t1 t2, s = t1 ++ t2 -> k t2 caps = None) ->
  forall n, Regex.greedy min max cls k caps n s = None.
Proof.
  induction s as [|c s IH]; intros H n; cbn [Regex.greedy].
  - rewrite (H "" "" eq_refl). now destruct (min <=? n)%nat.
  - rewrite (H "" (String c s) eq_refl).
    rewrite IH by (intros t1 t2 ->; now apply (H (String c t1) t2)).
    destruct (cls c && Regex.below max n); now destruct (min <=? n)%nat.
Qed.

(** A star takes the continuation's answer at the last place where it
    has one. *)
Lemma greedy_last (cls : ascii -> bool) (k : Regex.continuation)
    (caps res : Regex.captures) :
  forall a n b,
    Regex.all_in cls a = true ->
    k b caps = Some res ->
    (forall n', Regex.greedy 0 None cls k caps n' (after_first b) = None) ->
    Regex.greedy 0 None cls k caps n (a ++ b) = Some res.
Proof.
  induction a as [|x a IH]; intros n b Ha Hk Hb.
  - destruct b as [|c b]; cbn [append Regex.greedy]; cbn [Nat.leb]; [exact Hk|].
    simpl in Hb. rewrite Hb, Hk. now destruct (cls c && Regex.below None n).
  - unfold Regex.all_in in Ha. simpl in Ha. apply andb_true_iff in Ha as [Hx Ha].
    cbn [append Regex.greedy]. rewrite Hx. cbn [andb Regex.below].
    now rewrite (IH (S n) b Ha Hk Hb).
Qed.

Lemma starts_ci_refl (l t : string) : starts_ci l (l ++ t) = true.
Proof.
  induction l as [|a l IH]; simpl; [reflexivity|].
  now rewrite Ascii.eqb_refl, IH.
Qed.

Lemma literal_ci_match (l t : string) (caps : Regex.captures)
    (k : Regex.continuation) :
  Regex.matcher (Regex.literal_ci l) (l ++ t) caps k = k t caps.
Proof.
  revert k. induction l as [|a l IH]; intros k; [reflexivity|].
  cbn [Regex.literal_ci Regex.matcher Regex.lit_ci append].
  rewrite Ascii.eqb_refl. apply IH.
Qed.

Lemma literal_ci_mismatch (l s : string) (caps : Regex.captures)
    (k : Regex.continuation) :
  starts_ci l s = false -> Regex.matcher (Regex.literal_ci l) s caps k = None.
Proof.
  revert s k. induction l as [|a l IH]; intros s k H; [discriminate|].
  cbn [Regex.literal_ci Regex.matcher Regex.lit_ci].
  destruct s as [|b s]; [reflexivity|]. simpl in H.
  destruct (Ascii.eqb (CodeUnit.canonicalize b) (CodeUnit.canonicalize a));
    [|reflexivity].
  now apply IH.
Qed.

Lemma field_mismatch (l : string) (i : nat) (v rest : Regex.regex) (s : string)
    (caps : Regex.captures) (k : Regex.continuation) :
  starts_ci l s = false ->
  Regex.matcher (Regex.Cat (Slot.field l i v) rest) s caps k = None.
Proof.
  intros H. unfold Slot.field. cbn [Regex.matcher].
  now apply literal_ci_mismatch.
Qed.

(** One field of the layout: the label, a space, the value, and the
    rest of the pattern on what follows. *)
Lemma field_step (l : string) (i : nat) (v rest : Regex.regex)
    (val after : string) (caps res : Regex.captures) (k : Regex.continuation) :
  stops CodeUnit.is_space (val ++ after) = true ->
  (forall k', k' after caps = Some res ->
     Regex.matcher v (val ++ after) caps k' = Some res) ->
  Regex.matcher rest after (Regex.set_capture i val caps) k = Some res ->
  Regex.matcher (Regex.Cat (Slot.field l i v) rest) (l ++ " " ++ val ++ after)
    caps k = Some res.
Proof.
  intros Hsp Hv Hrest. unfold Slot.field.
  cbn [Regex.matcher]. rewrite literal_ci_match.
  cbn [Regex.matcher Regex.star].
  apply (greedy_run CodeUnit.is_space 0 _ caps res " " 0 (val ++ after));
    [reflexivity | exact Hsp | lia |].
  cbn [Regex.matcher]. apply Hv. cbv beta.
  now rewrite consumed_app.
Qed.

(** The text between two fields: the star runs to the end of the line
    and comes back to the label, the last place where the rest of the
    pattern matches. *)
Lemma gap_step (l : string) (i : nat) (v rest : Regex.regex)
    (t : string) (caps res : Regex.captures) (k : Regex.continuation) :
  label_free l (after_first t) ->
  Regex.matcher (Regex.Cat (Slot.field l i v) rest) t caps k = Some res ->
  Regex.matcher (Regex.Cat (Regex.star Regex.dot) (Regex.Cat (Slot.field l i v) rest))
    (", " ++ t) caps k = Some res.
Proof.
  intros Hfree H. cbn [Regex.matcher Regex.star].
  apply (greedy_last Regex.dot _ caps res ", " 0 t); [reflexivity | exact H |].
  apply greedy_all_fail. intros t1 t2 E.
  apply field_mismatch. now apply (Hfree t1 t2).
Qed.

(** *** The values *)

Lemma take_digits_spec (t : string) :
  t = fst (Number.take_digits t) ++ snd (Number.take_digits t)
  /\ all_digits (fst (Number.take_digits t)) = true.
Proof.
  unfold all_digits. induction t as [|c t [IH1 IH2]]; simpl; [now split|].
  destruct (CodeUnit.is_digit c) eqn:E; [|now split].
  destruct (Number.take_digits t) as [d r]. simpl in *.
  rewrite E, IH2. now rewrite <- IH1.
Qed.

Lemma is_amount_split (t : string) :
  is_amount t = true ->
  exists a d,
    all_digits a = true /\ 1 <= String.length a /\ all_digits d = true
    /\ (t = a \/ t = a ++ "." ++ d).
Proof.
  unfold is_amount. destruct (take_digits_spec t) as [Ht Ha].
  destruct (Number.take_digits t) as [a rest]. simpl in Ht, Ha.
  intros H. apply andb_true_iff in H as [Hne H].
  assert (La : 1 <= String.length a) by (destruct a; [discriminate | simpl; lia]).
  destruct rest as [|c d].
  - exists a, "". rewrite append_nil_r in Ht. repeat split; auto.
  - apply andb_true_iff in H as [Hc Hd]. apply Ascii.eqb_eq in Hc. subst c.
    exists a, d. repeat split; auto.
Qed.

Lemma amount_consumes (val q : string) (caps res : Regex.captures)
    (k : Regex.continuation) :
  is_amount val = true ->
  k (String "," q) caps = Some res ->
  Regex.matcher Slot.amount (val ++ String "," q) caps k = Some res.
Proof.
  intros Hval Hk. apply is_amount_split in Hval as (a & d & Ha & La & Hd & Hval).
  unfold Slot.amount. cbn [Regex.matcher Regex.plus Regex.opt Regex.star].
  assert (Htail : Regex.greedy 0 None CodeUnit.is_digit k caps 0 (d ++ String "," q)
                  = Some res).
  { apply greedy_run; [exact Hd | reflexivity | lia | exact Hk]. }
  destruct Hval as [-> | ->].
  - apply greedy_run; [exact Ha | reflexivity | lia |].
    cbn. exact Hk.
  - rewrite append_assoc.
    apply greedy_run; [exact Ha | reflexivity | lia |].
    cbn [append Regex.greedy Regex.below Nat.ltb Nat.leb].
    change (Slot.is_period ".") with true. cbn [andb].
    rewrite greedy_at_max by lia. cbn [Nat.leb].
    now rewrite Htail.
Qed.

Lemma word_consumes (val after : string) (caps res : Regex.captures)
    (k : Regex.continuation) :
  is_name val = true ->
  stops CodeUnit.is_word after = true ->
  k after caps = Some res ->
  Regex.matcher Slot.word (val ++ after) caps k = Some res.
Proof.
  intros Hval Hafter Hk. unfold is_name in Hval.
  apply andb_true_iff in Hval as [Hne Hall].
  unfold Slot.word. cbn [Regex.matcher Regex.plus].
  apply greedy_run; [exact Hall | exact Hafter | | exact Hk].
  destruct val; [discriminate | simpl; lia].
Qed.

(** *** Where the labels are not *)

Lemma label_free_nil (a : ascii) (l : string) : label_free (String a l) "".
Proof. intros [|c t1] t2 H; [simpl in H; now subst | discriminate]. Qed.

Lemma label_free_cons (l : string) (c : ascii) (t : string) :
  starts_ci l (String c t) = false ->
  label_free l t ->
  label_free l (String c t).
Proof.
  intros Hc Ht [|c1 t1] t2 H.
  - simpl in H. now subst.
  - simpl in H. injection H as _ H. now apply (Ht t1 t2).
Qed.

Lemma all_in_app (cls : ascii -> bool) (a b : string) :
  Regex.all_in cls (a ++ b) = Regex.all_in cls a && Regex.all_in cls b.
Proof.
  unfold Regex.all_in. induction a as [|c a IH]; simpl; [reflexivity|].
  now rewrite IH, andb_assoc.
Qed.

(** A block whose non-empty ends never start the label can go in front. *)
Lemma label_free_block (cls : ascii -> bool) (l x y : string) :
  Regex.all_in cls x = true ->
  (forall x2, Regex.all_in cls x2 = true -> 1 <= String.length x2 ->
     starts_ci l (x2 ++ y) = false) ->
  label_free l y ->
  label_free l (x ++ y).
Proof.
  intros Hx Hblock Hy. induction x as [|c x IH].
  - exact Hy.
  - cbn [append]. apply label_free_cons.
    + apply (Hblock (String c x)); [exact Hx | simpl; lia].
    + apply IH. unfold Regex.all_in in *. simpl in Hx.
      now apply andb_true_iff in Hx.
Qed.

Lemma amount_block_free (x y : string) :
  Regex.all_in (fun c => CodeUnit.is_digit c || Slot.is_period c) x = true ->
  label_free "rate:" y ->
  label_free "rate:" (x ++ y).
Proof.
  intros Hx. apply (label_free_block _ _ x y Hx).
  intros [|c x2] H2 L2; [simpl in L2; lia|].
  unfold Regex.all_in in H2. simpl in H2. apply andb_true_iff in H2 as [Hc _].
  cbn [append starts_ci].
  replace (Ascii.eqb (CodeUnit.canonicalize c) (CodeUnit.canonicalize "r")) with false;
    [reflexivity|].
  clear -Hc. destruct c as [[] [] [] [] [] [] [] []]; try discriminate Hc; reflexivity.
Qed.

Lemma word_not_colon (c : ascii) :
  CodeUnit.is_word c = true ->
  Ascii.eqb (CodeUnit.canonicalize c) (CodeUnit.canonicalize ":") = false.
Proof. destruct c as [[] [] [] [] [] [] [] []]; intros H; try discriminate H; reflexivity. Qed.

Lemma starts_ci_avoided (c : ascii) (t : string) (l : string) :
  avoids c l = true ->
  forall l1 l2, l = l1 ++ l2 -> 1 <= String.length l2 ->
  starts_ci l2 (String c t) = false.
Proof.
  unfold avoids. revert l. intros l H l1. revert l H.
  induction l1 as [|a l1 IH]; intros l H l2 E L2.
  - simpl in E. subst l2. destruct l as [|a l]; [simpl in L2; lia|].
    simpl in H. apply andb_true_iff in H as [Ha _].
    apply negb_true_iff in Ha. cbn [starts_ci]. now rewrite Ha.
  - subst l. simpl in H. apply andb_true_iff in H as [_ H].
    now apply (IH (l1 ++ l2) H).
Qed.

(** Word characters cannot reach the colon of a label when what follows
    them starts none of the label's ends. *)
Lemma word_block_mismatch (y : string) :
  forall x l,
    Regex.all_in CodeUnit.is_word x = true ->
    1 <= String.length x ->
    has_colon l = true ->
    (forall l1 l2, l = l1 ++ l2 -> 1 <= String.length l2 -> starts_ci l2 y = false) ->
    starts_ci l (x ++ y) = false.
Proof.
  induction x as [|c x IH]; intros l Hx Lx Hcolon Hy; [simpl in Lx; lia|].
  destruct l as [|a l]; [discriminate|].
  unfold Regex.all_in in Hx. simpl in Hx. apply andb_true_iff in Hx as [Hc Hx].
  cbn [append starts_ci].
  unfold has_colon in Hcolon. cbn [list_ascii_of_string existsb] in Hcolon.
  destruct (Ascii.eqb ":" a) eqn:Ea.
  - apply Ascii.eqb_eq in Ea. subst a. now rewrite (word_not_colon c Hc).
  - cbn [orb] in Hcolon. fold (has_colon l) in Hcolon.
    assert (Ll : 1 <= String.length l)
      by (destruct l; [discriminate Hcolon | simpl; lia]).
    assert (Hrest : starts_ci l (x ++ y) = false).
    { destruct x as [|c' x'].
      - simpl. apply (Hy (String a "") l); [reflexivity | exact Ll].
      - apply IH; [exact Hx | simpl; lia | exact Hcolon |].
        intros l1 l2 E. apply (Hy (String a l1) l2). simpl. now rewrite E. }
    rewrite Hrest. apply andb_false_r.
Qed.

Lemma word_block_free (l x : string) (c : ascii) (t : string) :
  Regex.all_in CodeUnit.is_word x = true ->
  has_colon l = true ->
  avoids c l = true ->
  label_free l (String c t) ->
  label_free l (x ++ String c t).
Proof.
  intros Hx Hcolon Hav. apply (label_free_block _ _ x _ Hx).
  intros x2 H2 L2. apply word_block_mismatch; try assumption.
  now apply starts_ci_avoided.
Qed.

Lemma word_block_free_end (a : ascii) (l x : string) :
  Regex.all_in CodeUnit.is_word x = true ->
  has_colon (String a l) = true ->
  label_free (String a l) (x ++ "").
Proof.
  intros Hx Hcolon.
  apply (label_free_block _ _ x "" Hx); [|apply label_free_nil].
  intros x2 H2 L2. apply word_block_mismatch; try assumption.
  intros l1 [|b l2] _ L; [simpl in L; lia | reflexivity].
Qed.

Lemma is_amount_chars (t : string) :
  is_amount t = true ->
  Regex.all_in (fun c => CodeUnit.is_digit c || Slot.is_period c) t = true.
Proof.
  intros H. apply is_amount_split in H as (a & d & Ha & _ & Hd & H).
  assert (Hdigits : forall x, all_digits x = true ->
            Regex.all_in (fun c => CodeUnit.is_digit c || Slot.is_period c) x = true).
  { unfold all_digits, Regex.all_in. induction x as [|c x IH]; simpl; [reflexivity|].
    intros Hx. apply andb_true_iff in Hx as [-> Hx]. now apply IH. }
  destruct H as [-> | ->]; [now apply Hdigits|].
  rewrite !all_in_app, (Hdigits a Ha), (Hdigits d Hd). reflexivity.
Qed.

Lemma digit_first_stops_space (a rest : string) :
  all_digits a = true -> 1 <= String.length a ->
  stops CodeUnit.is_space (a ++ rest) = true.
Proof.
  intros Ha La. destruct a as [|c a]; [simpl in La; lia|].
  unfold all_digits in Ha. simpl in Ha. apply andb_true_iff in Ha as [Hc _].
  simpl. clear -Hc.
  destruct c as [[] [] [] [] [] [] [] []]; try discriminate Hc; reflexivity.
Qed.

Lemma is_amount_stops_space (t after : string) :
  is_amount t = true -> stops CodeUnit.is_space (t ++ after) = true.
Proof.
  intros H. apply is_amount_split in H as (a & d & Ha & La & _ & H).
  destruct H as [-> | ->]; [|rewrite append_assoc];
    now apply digit_first_stops_space.
Qed.

Lemma is_name_stops_space (t after : string) :
  is_name t = true -> stops CodeUnit.is_space (t ++ after) = true.
Proof.
  unfold is_name. intros H. apply andb_true_iff in H as [Hne H].
  destruct t as [|c t]; [discriminate|].
  unfold Regex.all_in in H. simpl in H. apply andb_true_iff in H as [Hc _].
  simpl. clear -Hc.
  destruct c as [[] [] [] [] [] [] [] []]; try discriminate Hc; reflexivity.
Qed.

Lemma is_name_word (t : string) :
  is_name t = true -> Regex.all_in CodeUnit.is_word t = true.
Proof. unfold is_name. intros H. now apply andb_true_iff in H. Qed.

Ltac label_free_tac :=
  cbn [after_first append];
  repeat first
    [ apply label_free_cons; [reflexivity|]
    | apply amount_block_free; [now apply is_amount_chars|]
    | apply word_block_free_end; [now apply is_name_word | reflexivity]
    | apply word_block_free;
        [now apply is_name_word | reflexivity | reflexivity|] ].

(** The pattern on the layout: every field takes its value whole. *)
Lemma layout_steps (h r st co ci : string) (caps res : Regex.captures)
    (k : Regex.continuation) :
  is_amount h = true -> is_amount r = true ->
  is_name st = true -> is_name co = true -> is_name ci = true ->
  k "" (Regex.set_capture 5 ci (Regex.set_capture 4 co
          (Regex.set_capture 3 st (Regex.set_capture 2 r
             (Regex.set_capture 1 h caps))))) = Some res ->
  Regex.matcher Slot.pattern
    ("hours:" ++ " " ++ h ++ ", " ++ "rate:" ++ " " ++ r ++ ", "
       ++ "state:" ++ " " ++ st ++ ", " ++ "county:" ++ " " ++ co ++ ", "
       ++ "city:" ++ " " ++ ci ++ "")
    caps k = Some res.
Proof.
  intros Hh Hr Hst Hco Hci Hk.
  unfold Slot.pattern. cbn [Regex.cat_all].
  apply field_step;
    [now apply is_amount_stops_space
    | intros k' Hk'; now apply amount_consumes |].
  apply gap_step; [label_free_tac|].
  apply field_step;
    [now apply is_amount_stops_space
    | intros k' Hk'; now apply amount_consumes |].
  apply gap_step; [label_free_tac|].
  apply field_step;
    [now apply is_name_stops_space
    | intros k' Hk'; now apply word_consumes |].
  apply gap_step; [label_free_tac|].
  apply field_step;
    [now apply is_name_stops_space
    | intros k' Hk'; now apply word_consumes |].
  apply gap_step; [label_free_tac|].
  apply field_step;
    [now apply is_name_stops_space
    | intros k' Hk'; now apply word_consumes |].
  exact Hk.
Qed.

Lemma exec_here (r : Regex.regex) (s : string) (res : Regex.captures) :
  Regex.match_here r s = Some res -> Regex.exec r s = Some res.
Proof. intros H. destruct s; cbn [Regex.exec]; now rewrite H. Qed.

Lemma consumed_all (s : string) : Regex.consumed s "" = s.
Proof.
  unfold Regex.consumed. simpl. rewrite Nat.sub_0_r. apply substring_all.
Qed.

Lemma format_slots_matches (h r st co ci : string) :
  is_amount h = true -> is_amount r = true ->
  is_name st = true -> is_name co = true -> is_name ci = true ->
  Slot.matches (format_slots h r st co ci)
  = Some [ Some (format_slots h r st co ci);
           Some h; Some r; Some st; Some co; Some ci ].
Proof.
  intros Hh Hr Hst Hco Hci.
  assert (E : format_slots h r st co ci
              = "hours:" ++ " " ++ h ++ ", " ++ "rate:" ++ " " ++ r ++ ", "
                ++ "state:" ++ " " ++ st ++ ", " ++ "county:" ++ " " ++ co ++ ", "
                ++ "city:" ++ " " ++ ci ++ "").
  { unfold format_slots. now rewrite append_nil_r. }
  unfold Slot.matches. apply exec_here. unfold Regex.match_here.
  rewrite E. apply layout_steps; try assumption.
  cbv beta. rewrite consumed_all. reflexivity.
Qed.

(** Round trip.  In [awaiting_tax_details] an utterance written in the
    layout of the prompts, with numbers for the hours and the rate and
    one word each for the state, the county and the city, is answered
    with the estimate for exactly these values: the captures are the
    five values as written, and the reply names the city, the county and
    the state. *)
Theorem formatted_slots_round_trip (h r st co ci : string) :
  is_amount h = true -> is_amount r = true ->
  is_name st = true -> is_name co = true -> is_name ci = true ->
  let m := [ Some (format_slots h r st co ci);
             Some h; Some r; Some st; Some co; Some ci ] in
  Slot.matches (format_slots h r st co ci) = Some m
  /\ Variant1.handleBotResponse awaiting_tax_details (format_slots h r st co ci)
     = (Variant1.estimate_text m, awaiting_anything_else)
  /\ Estimate.hours m = Number.parseFloat h
  /\ Estimate.rate m = Number.parseFloat r
  /\ JSString.includes (Variant1.estimate_text m)
       (ci ++ ", " ++ co ++ " County, " ++ st) = true.
Proof.
  intros Hh Hr Hst Hco Hci m.
  pose proof (format_slots_matches h r st co ci Hh Hr Hst Hco Hci) as Hm.
  fold m in Hm.
  refine (conj Hm (conj (matched_details _ m Hm) (conj eq_refl (conj eq_refl _)))).
  apply (proj1 (estimate_reports m)).
Qed.

Lemma formatted_slots_round_trip_witness :
  Slot.matches (format_slots "7.5" "20" "CA" "Marin" "Novato")
  = Some [ Some (format_slots "7.5" "20" "CA" "Marin" "Novato");
           Some "7.5"; Some "20"; Some "CA"; Some "Marin"; Some "Novato" ].
Proof.
  apply (formatted_slots_round_trip "7.5" "20" "CA" "Marin" "Novato");
    reflexivity.
Defined.

(** ** From the request to the estimate *)

Lemma all_space_app (a b : string) :
  JSString.all_space (a ++ b) = JSString.all_space a && JSString.all_space b.
Proof.
  unfold JSString.all_space. induction a as [|c a IH]; simpl; [reflexivity|].
  now rewrite IH, andb_assoc.
Qed.

Lemma all_space_toLowerCase (s : string) :
  JSString.all_space (JSString.toLowerCase s) = JSString.all_space s.
Proof.
  unfold JSString.all_space. induction s as [|c s IH]; simpl; [reflexivity|].
  now rewrite is_space_toLowerCase, IH.
Qed.

(** An utterance with a keyword in it is not blank. *)
Lemma contains_not_blank (u w : string) :
  contains_ci u w -> JSString.all_space w = false -> JSString.all_space u = false.
Proof.
  intros (pre & mid & post & -> & <-) H.
  rewrite all_space_toLowerCase in H.
  rewrite !all_space_app, H. now rewrite andb_false_r.
Qed.

Local Open Scope list_scope.

(** Asking and answering.  From the start of a session, a user who
    sends an utterance with "tax" in it and then the five values in the
    layout of the prompt sees five messages: the greeting, the request,
    the details prompt, the values, and the estimate for these values;
    the conversation is then in [awaiting_anything_else] and the text
    box is empty. *)
Theorem ask_then_answer (u h r st co ci : string) (key_or_click : bool) :
  contains_ci u "tax" ->
  is_amount h = true -> is_amount r = true ->
  is_name st = true -> is_name co = true -> is_name ci = true ->
  let slots := format_slots h r st co ci in
  let send := if key_or_click then Shell.KeyDown "Enter" else Shell.Click in
  let c := Variant1.run
             [Shell.Change u; send; Shell.Change slots; send]
             Shell.session_start in
  Shell.messages c
  = [ {| sender := bot; text := greeting |};
      {| sender := user; text := u |};
      {| sender := bot; text := details_prompt |};
      {| sender := user; text := slots |};
      {| sender := bot;
         text := Variant1.estimate_text
                   [Some slots; Some h; Some r; Some st; Some co; Some ci] |} ]
  /\ Shell.state c = awaiting_anything_else
  /\ Shell.input c = ""%string.
Proof.
  intros Hu Hh Hr Hst Hco Hci slots send c.
  assert (Hsend : forall c', Shell.handle Variant1.handleBotResponse send c'
                             = Shell.handleSend Variant1.handleBotResponse c')
    by (intros c'; subst send; now destruct key_or_click).
  assert (Hblank : JSString.all_space u = false)
    by (apply (contains_not_blank u "tax"); [exact Hu | reflexivity]).
  apply includes_toLowerCase_iff in Hu.
  pose proof (format_slots_matches h r st co ci Hh Hr Hst Hco Hci) as Hm.
  fold slots in Hm.
  assert (H1 : Variant1.handleBotResponse awaiting_tax_request u
               = (details_prompt, awaiting_tax_details))
    by (unfold Variant1.handleBotResponse; now rewrite Hu).
  assert (E1 : Shell.handleSend Variant1.handleBotResponse
                 (Shell.setInput u Shell.session_start)
               = {| Shell.messages :=
                      [ {| sender := bot; text := greeting |};
                        {| sender := user; text := u |};
                        {| sender := bot; text := details_prompt |} ];
                    Shell.input := ""%string;
                    Shell.state := awaiting_tax_details |}).
  { rewrite handleSend_not_blank by exact Hblank.
    cbn [Shell.setInput Shell.messages Shell.input Shell.state
         Shell.session_start Shell.greet Shell.initial].
    now rewrite H1. }
  subst c. unfold Variant1.run, Shell.run. cbn [fold_left].
  rewrite !Hsend. cbn [Shell.handle]. rewrite E1.
  rewrite handleSend_not_blank by reflexivity.
  cbn [Shell.setInput Shell.messages Shell.input Shell.state].
  rewrite (matched_details slots _ Hm). cbn [fst snd app].
  repeat split.
Qed.

Lemma ask_then_answer_witness :
  Shell.state
    (Variant1.run
       [Shell.Change "Please calculate my TAXES"; Shell.Click;
        Shell.Change (format_slots "40" "35" "NY" "Kings" "NYC"); Shell.Click]
       Shell.session_start)
  = awaiting_anything_else.
Proof.
  apply (ask_then_answer "Please calculate my TAXES" "40" "35" "NY" "Kings" "NYC" false);
    try reflexivity.
  apply includes_toLowerCase_iff. reflexivity.
Defined.

Local Open Scope string_scope.

(** The way back to the details prompt.  Whatever the state, an
    utterance with "tax" and without "no" in it that is no set of
    fields, sent twice, leaves the conversation in
    [awaiting_tax_details]. *)
Theorem tax_twice_reaches_details (s : ChatState) (u : string) :
  contains_ci u "tax" -> ~ contains_ci u "no" -> ~ Slot.present u ->
  snd (converse Variant1.handleBotResponse s [u; u]) = awaiting_tax_details.
Proof.
  intros Ht Hn Hp.
  apply includes_toLowerCase_iff in Ht.
  apply not_includes_toLowerCase_iff in Hn.
  apply not_matches_spec in Hp.
  cbn [converse]. unfold Variant1.handleBotResponse.
  destruct s; rewrite ?Ht, ?Hn, ?Hp; cbn; rewrite ?Ht, ?Hn, ?Hp; reflexivity.
Qed.

Lemma tax_twice_reaches_details_witness :
  snd (converse Variant1.handleBotResponse idle ["taxes?"; "taxes?"])
  = awaiting_tax_details.
Proof.
  apply (tax_twice_reaches_details idle "taxes?").
  - apply includes_toLowerCase_iff. reflexivity.
  - apply not_includes_toLowerCase_iff. reflexivity.
  - apply not_matches_spec. reflexivity.
Defined.

Lemma variant1_no_alternates_witness :
  fst (Variant1.handleBotResponse awaiting_anything_else "no thanks") = farewell
  /\ snd (Variant1.handleBotResponse awaiting_anything_else "no thanks")
     <> awaiting_anything_else
  /\ snd (Variant1.handleBotResponse
            (snd (Variant1.handleBotResponse awaiting_anything_else "no thanks"))
            "no thanks") = awaiting_anything_else.
Proof.
  apply (variant1_no_alternates "no thanks" awaiting_anything_else).
  - apply includes_toLowerCase_iff. reflexivity.
  - apply not_includes_toLowerCase_iff. reflexivity.
  - now right.
Defined.
